(** * DigitalTwin: the conversational core, embedded and verified

    A shallow embedding of the state-handling core of the DigitalTwin
    application (src/App.tsx, src/components/ChatSession.tsx,
    src/components/Dashboard.tsx, src/components/Translator.tsx (the
    LiveSession component), src/components/CreativeStudio.tsx (the
    DecisionSimulator component) and src/services/gemini.ts), together
    with the properties its specification states about it.

    React state is modelled by explicit state passing: a handler is a
    function from the values its closure captured to the request it sends
    and the state it installs.  Browser built-ins (JSON.stringify,
    Date.now, the audio clock) are parameters. *)

From Stdlib Require Import Ascii ZArith.
From stdpp Require Import base option list strings pretty gmap.


(** ** JavaScript strings *)

Module JsString.

(** The line feed written [\n] in the source's template literals. *)
Definition nl : string := String (Ascii.ascii_of_nat 10) EmptyString.

(** A string is the sequence of its code units, and the strings of this
    development are those whose code units are below 256 (a character
    has eight bits).  Of these code units [String.prototype.trim]
    removes the white space and the line terminators: tab, line feed,
    vertical tab, form feed and carriage return (9 to 13), space (32)
    and no-break space (160).  The other code units it removes (U+1680,
    U+2000 to U+200A, U+2028, U+2029, U+202F, U+205F, U+3000, U+FEFF)
    are above 255. *)
Definition is_space (a : ascii) : bool :=
  let n := Ascii.nat_of_ascii a in
  (Nat.leb 9 n && Nat.leb n 13) || Nat.eqb n 32 || Nat.eqb n 160.

Fixpoint trim_start (s : string) : string :=
  match s with
  | EmptyString => EmptyString
  | String a s' => if is_space a then trim_start s' else s
  end.

Fixpoint trim_end (s : string) : string :=
  match s with
  | EmptyString => EmptyString
  | String a s' =>
      match trim_end s' with
      | EmptyString => if is_space a then EmptyString else String a EmptyString
      | t => String a t
      end
  end.

(** [s.trim()] *)
Definition trim (s : string) : string := trim_end (trim_start s).

(** [!s.trim()]: the empty string is the only falsy string. *)
Definition blank (s : string) : bool := bool_decide (trim s = "").

(** [s.startsWith(p)] *)
Fixpoint starts_with (p s : string) : bool :=
  match p, s with
  | EmptyString, _ => true
  | String a p', String b s' => Ascii.eqb a b && starts_with p' s'
  | String _ _, EmptyString => false
  end.

(** [s.includes(sub)] *)
Fixpoint includes (sub s : string) : bool :=
  starts_with sub s ||
  match s with
  | EmptyString => false
  | String _ s' => includes sub s'
  end.

End JsString.

(** ** The data model of types.ts *)

Record UserMemoryProfile := {
  values : list string;
  personalityTraits : list string;
  mentalModels : list string;
  workHabits : list string;
  decisionPrinciples : list string;
  interests : list string;
  lastUpdated : string
}.

Inductive MessageRole := USER | MODEL | SYSTEM.

Global Instance MessageRole_eq_dec : EqDecision MessageRole.
Proof. solve_decision. Defined.

Record FileData := {
  mimeType : string;
  data : string;
  name : string
}.

Record ChatMessage := {
  id : string;
  role : MessageRole;
  content : string;
  image : option string;
  fileData : option FileData;
  isThinking : option bool;
  groundingUrls : option (list (string * string))
}.

(** [arr.slice(-n)]: the start index is [max (length - n) 0], which is
    what truncated subtraction computes. *)
Definition slice_last {A} (n : nat) (l : list A) : list A :=
  drop (length l - n) l.

(** [arr.slice(0, -1)]. *)
Definition slice_init {A} (l : list A) : list A :=
  take (length l - 1) l.

(** ** Conversational Turn Engine (ChatSession.tsx) *)

Module ChatTurn.

(** One entry of the role-tagged history handed to [sendChatMessage]:
    [{ role, parts: [{ text }] }]. *)
Record Part := { text : string }.
Record HistoryEntry := { h_role : MessageRole; parts : list Part }.

(** The values a render of the component closes over. *)
Record State := {
  messages : list ChatMessage;
  input : string;
  attachment : option FileData;
  imagePreview : option string;
  isLoading : bool;
  isAnalyzing : bool;
  useThinking : bool;
  useSearch : bool;
  profile : UserMemoryProfile
}.

(** What [handleSend] has done when it awaits [sendChatMessage]: the
    log it works on, whether it stored that log through [handleSave],
    and the three arguments of the call. *)
Record Dispatch := {
  newMessages : list ChatMessage;
  saved : bool;
  history : list HistoryEntry;
  message : string;
  opt_fileData : option FileData
}.

Section WithStringify.

(** [JSON.stringify] at the profile type. *)
Context (JSON_stringify : UserMemoryProfile → string).

Definition profile_context (p : UserMemoryProfile) : string :=
  "[System Context: Current User Profile (Values/Traits): "
    +:+ JSON_stringify p +:+ "]" +:+ JsString.nl +:+ JsString.nl.

Definition to_entry (m : ChatMessage) : HistoryEntry :=
  {| h_role := role m; parts := [ {| text := content m |} ] |}.

(** [recentMessages.filter(m => m.role !== SYSTEM)] *)
Definition window (log : list ChatMessage) : list ChatMessage :=
  filter (λ m, role m ≠ SYSTEM) (slice_last 20 log).

(** [history[0].parts[0].text = `${ctx}${history[0].parts[0].text}`]
    under the guard [history.length > 0]. *)
Definition inject (ctx : string) (h : list HistoryEntry) : list HistoryEntry :=
  match h with
  | [] => []
  | e :: rest =>
      match parts e with
      | [] => e :: rest
      | p :: ps =>
          {| h_role := h_role e;
             parts := {| text := ctx +:+ text p |} :: ps |} :: rest
      end
  end.

(** The entry [inject] makes of a message that heads the window. *)
Definition injected (ctx : string) (m : ChatMessage) : HistoryEntry :=
  {| h_role := role m; parts := [ {| text := ctx +:+ content m |} ] |}.

(** [handleSend(retryContent?, retryAttachment?)] up to its call of
    [sendChatMessage]; [None] is the early return.  [now] is
    [Date.now().toString()]. *)
Definition handleSend (retryContent : option string)
    (retryAttachment : option FileData) (now : string) (st : State)
    : option Dispatch :=
  let contentToSend := default (input st) retryContent in
  let attachmentToSend :=
    match retryAttachment with
    | Some a => Some a
    | None => attachment st
    end in
  if (JsString.blank contentToSend && negb (bool_decide (is_Some attachmentToSend)))
     || isLoading st || isAnalyzing st
  then None
  else
    let newMessages :=
      match retryContent with
      | None =>
          messages st ++
            [ {| id := now; role := USER; content := contentToSend;
                 image := imagePreview st; fileData := attachmentToSend;
                 isThinking := None; groundingUrls := None |} ]
      | Some _ => messages st
      end in
    let history := to_entry <$> window newMessages in
    Some {| newMessages := newMessages;
            saved := bool_decide (retryContent = None);
            history := inject (profile_context (profile st)) history;
            message := contentToSend;
            opt_fileData := attachmentToSend |}.

(** [handleRegenerate]: the call of [handleSend] it ends in runs in
    the closure of the same render, so it still reads [messages st];
    the [setMessages(msgsToKeep)] before it only takes effect in the
    next render. *)
Definition handleRegenerate (now : string) (st : State) : option Dispatch :=
  if bool_decide (length (messages st) = 0) || isLoading st then None
  else
    match last (messages st) with
    | None => None
    | Some lastMsg =>
        let userMsgToRetry :=
          match role lastMsg with
          | MODEL => last (slice_init (messages st))
          | USER => Some lastMsg
          | SYSTEM => None
          end in
        match userMsgToRetry with
        | Some u =>
            if bool_decide (role u = USER)
            then handleSend (Some (content u)) (fileData u) now st
            else None
        | None => None
        end
    end.

(** The two ways the interface starts a turn. *)
Inductive Action := SendInput | Regenerate.

Definition dispatch (a : Action) (now : string) (st : State) : option Dispatch :=
  match a with
  | SendInput => handleSend None None now st
  | Regenerate => handleRegenerate now st
  end.

End WithStringify.

(** The window the specification describes: system messages dropped
    first, then the last 20 of what remains. *)
Definition spec_window (log : list ChatMessage) : list ChatMessage :=
  slice_last 20 (filter (λ m, role m ≠ SYSTEM) log).

(** The texts of a request: every part of the history, then the new
    message. *)
Definition request_texts (d : Dispatch) : list string :=
  (concat ((λ e, text <$> parts e) <$> history d)) ++ [message d].

(** The property of the context window as the specification words it:
    the history is built from [spec_window]. *)
Definition spec_window_property (JSON_stringify : UserMemoryProfile → string) : Prop :=
  ∀ rc ra now st d,
    handleSend JSON_stringify rc ra now st = Some d →
    20 < length (messages st) →
    history d =
      inject (profile_context JSON_stringify (profile st))
        (to_entry <$> spec_window (newMessages d)).

(** A session of 21 messages whose third message is a system message
    (the confirmation the analysis action appends), about to send
    ["hello"]. *)
Definition example_message (r : MessageRole) (c : string) : ChatMessage :=
  {| id := "0"; role := r; content := c; image := None; fileData := None;
     isThinking := None; groundingUrls := None |}.

Definition example_profile : UserMemoryProfile :=
  {| values := ["directness"]; personalityTraits := []; mentalModels := [];
     workHabits := []; decisionPrinciples := []; interests := [];
     lastUpdated := "" |}.

Definition example_state : State :=
  {| messages :=
       example_message USER "first" :: example_message MODEL "second"
         :: example_message SYSTEM "profile updated"
         :: replicate 18 (example_message USER "more");
     input := "hello"; attachment := None; imagePreview := None;
     isLoading := false; isAnalyzing := false;
     useThinking := false; useSearch := false;
     profile := example_profile |}.

(** A stand-in for [JSON.stringify] in examples. *)
Definition example_stringify (p : UserMemoryProfile) : string :=
  "{values:" +:+ String.concat "," (values p) +:+ "}".

(** The property of the profile injection as the specification words
    it: in every turn that is dispatched, the serialized profile
    appears in exactly one text of the request. *)
Definition spec_injection_property (JSON_stringify : UserMemoryProfile → string)
    : Prop :=
  ∀ a now st d,
    dispatch JSON_stringify a now st = Some d →
    length (filter (λ t, JsString.includes (JSON_stringify (profile st)) t = true)
              (request_texts d)) = 1.

(** The example session, about to send the serialized profile itself
    (pasted into the input). *)
Definition example_echo_state : State :=
  {| messages := messages example_state;
     input := example_stringify example_profile;
     attachment := None; imagePreview := None;
     isLoading := false; isAnalyzing := false;
     useThinking := false; useSearch := false;
     profile := example_profile |}.

End ChatTurn.

(** ** AI Gateway: retry with backoff and fallback (services/gemini.ts) *)

Module Gateway.

(** What the handler reads of a thrown error. *)
Record JsError := {
  message : option string;
  status : option Z
}.

Inductive result (T : Type) :=
| Ok (v : T)
| Err (e : JsError).
Arguments Ok {T} v.
Arguments Err {T} e.

(** [error.message?.includes('unavailable') || error.status === 503
     || error.status === 429] *)
Definition isUnavailable (e : JsError) : bool :=
  from_option (JsString.includes "unavailable") false (message e)
  || bool_decide (status e = Some 503%Z)
  || bool_decide (status e = Some 429%Z).

(** What a call of [retryOperation] does to the outside, in order. *)
Inductive Event :=
| Attempt                (* [operation()] *)
| Sleep (ms : Z)         (* [setTimeout(resolve, delay)] *)
| Fallback.              (* [fallbackOperation()] *)

Global Instance Event_eq_dec : EqDecision Event.
Proof. solve_decision. Defined.

(** [retryOperation(operation, retries, delay, fallbackOperation)].
    The operation is effectful: [operation k] is the outcome of its
    [k]-th invocation, and [done] counts the invocations already made.
    [fallbackOperation] is invoked at most once, so its outcome stands
    for it.  The recursion is the source's, on [retries]. *)
Fixpoint retryOperation {T} (operation : nat → result T) (done : nat)
    (retries : nat) (delay : Z) (fallbackOperation : option (result T))
    : list Event * result T :=
  match operation done with
  | Ok v => ([Attempt], Ok v)
  | Err error =>
      let after_retries (retries_is_0 : bool) :=
        match fallbackOperation with
        | Some fb =>
            if isUnavailable error || retries_is_0
            then ([Attempt; Fallback], fb)
            else ([Attempt], Err error)
        | None => ([Attempt], Err error)
        end in
      match retries with
      | S retries' =>
          if isUnavailable error then
            let '(tr, r) :=
              retryOperation operation (S done) retries' (delay * 2)
                fallbackOperation in
            (Attempt :: Sleep delay :: tr, r)
          else after_retries false
      | O => after_retries true
      end
  end.

Definition attempts (tr : list Event) : nat :=
  length (filter (λ e, e = Attempt) tr).

Definition fallbacks (tr : list Event) : nat :=
  length (filter (λ e, e = Fallback) tr).

Definition sleeps (tr : list Event) : list Z :=
  omap (λ e, match e with Sleep ms => Some ms | _ => None end) tr.

(** The schedule the specification describes: base delay doubling. *)
Definition backoff (delay : Z) (retries : nat) : list Z :=
  (λ i, (delay * 2 ^ Z.of_nat i)%Z) <$> seq 0 retries.

End Gateway.

(** ** Untyped profile values: what [JSON.parse] hands to the program *)

Module Json.

Import Gateway.

(** Numbers are restricted to the integers; a fractional number
    behaves like any non-zero one in what follows. *)
#[warnings="-register-all"] Inductive json :=
| JNull
| JBool (b : bool)
| JNum (n : Z)
| JStr (s : string)
| JArr (items : list json)
| JObj (fields : list (string * json)).

Fixpoint assoc (k : string) (fs : list (string * json)) : option json :=
  match fs with
  | [] => None
  | (k', v) :: fs' => if String.eqb k' k then Some v else assoc k fs'
  end.

(** [j.k] for a [j] other than [null]; [None] is [undefined].  The
    keys read below are own properties of objects only (an array
    answers [values] with a built-in method, which is no array and is
    truthy, and nothing here reads [values] for its truth value). *)
Definition get (j : json) (k : string) : option json :=
  match j with
  | JObj fs => assoc k fs
  | _ => None
  end.

(** [Array.isArray(v)] *)
Definition isArray (v : option json) : bool :=
  match v with
  | Some (JArr _) => true
  | _ => false
  end.

Definition truthy (v : option json) : bool :=
  match v with
  | None | Some JNull => false
  | Some (JBool b) => b
  | Some (JNum n) => negb (n =? 0)%Z
  | Some (JStr s) => negb (String.eqb s "")
  | Some (JArr _) | Some (JObj _) => true
  end.

Definition categories : list string :=
  ["values"; "personalityTraits"; "mentalModels"; "workHabits";
   "decisionPrinciples"; "interests"].

(** [Array.isArray(json.k) ? json.k : []] *)
Definition array_or_empty (j : json) (k : string) : json :=
  match get j k with
  | Some (JArr items) => JArr items
  | _ => JArr []
  end.

(** The [sanitizedProfile] of Dashboard's [handleFileChange].  A
    property read on [null] throws, which the handler's [catch] turns
    into a failed import: [None].  [now] is
    [new Date().toLocaleString()]. *)
Definition sanitize (now : string) (j : json) : option json :=
  match j with
  | JNull => None
  | _ =>
      Some (JObj
        [ ("values", array_or_empty j "values");
          ("personalityTraits", array_or_empty j "personalityTraits");
          ("mentalModels", array_or_empty j "mentalModels");
          ("workHabits", array_or_empty j "workHabits");
          ("decisionPrinciples", array_or_empty j "decisionPrinciples");
          ("interests", array_or_empty j "interests");
          ("lastUpdated",
            if truthy (get j "lastUpdated")
            then default JNull (get j "lastUpdated")
            else JStr now) ])
  end.

(** The shape invariant of the data model: all six categories are
    arrays. *)
Definition shape_ok (p : json) : bool :=
  forallb (λ k, isArray (get p k)) categories.

(** [INITIAL_PROFILE] of App.tsx. *)
Definition INITIAL_PROFILE : json :=
  JObj [ ("values", JArr []); ("personalityTraits", JArr []);
         ("mentalModels", JArr []); ("workHabits", JArr []);
         ("decisionPrinciples", JArr []); ("interests", JArr []);
         ("lastUpdated", JStr "") ].

(** A text handed to [JSON.parse]: missing (or empty, which is falsy
    as well), not parseable, or parsed. *)
Inductive Blob :=
| Absent
| Malformed (syntax_error : string)
| Parsed (j : json).

(** The profile part of App's load effect:
    [if (savedProfile) { try { setProfile(JSON.parse(savedProfile)) }
     catch (e) { console.error(e) } }], from the initial state. *)
Definition load_profile (savedProfile : Blob) : json :=
  match savedProfile with
  | Parsed j => j
  | Absent | Malformed _ => INITIAL_PROFILE
  end.

Fixpoint set_field (k : string) (v : json) (fs : list (string * json))
    : list (string * json) :=
  match fs with
  | [] => [(k, v)]
  | (k', v') :: fs' =>
      if String.eqb k' k then (k, v) :: fs' else (k', v') :: set_field k v fs'
  end.

(** The own enumerable properties an object spread [{...j}] copies:
    the fields of an object, the elements of an array and the code
    units of a string under their indices in decimal, and nothing for
    [null], a boolean or a number. *)
Definition spread (j : json) : list (string * json) :=
  match j with
  | JObj fs => fs
  | JArr items => imap (λ i v, (pretty i, v)) items
  | JStr s =>
      imap (λ i c, (pretty i, JStr (String c EmptyString)))
        (String.list_ascii_of_string s)
  | JNull | JBool _ | JNum _ => []
  end.

(** App's [handleUpdateProfile]: the profile state it installs,
    [{ ...newProfile, lastUpdated: new Date().toLocaleString() }]. *)
Definition handleUpdateProfile (now : string) (newProfile : json) : json :=
  JObj (set_field "lastUpdated" (JStr now) (spread newProfile)).

(** Dashboard's [handleFileChange], from the parsed file to the
    profile state: sanitize, ask, then [onImportProfile], which is
    [handleUpdateProfile].  A failure or a refusal leaves the profile
    as it was. *)
Definition handleFileChange (file : Blob) (confirmLoad : bool)
    (now : string) (profile : json) : json :=
  match file with
  | Parsed j =>
      match sanitize now j with
      | Some sanitizedProfile =>
          if confirmLoad then handleUpdateProfile now sanitizedProfile
          else profile
      | None => profile
      end
  | Absent | Malformed _ => profile
  end.

(** [runAnalysis] inside [analyzeProfile]: the structured completion,
    returned as [JSON.parse] gives it. *)
Definition runAnalysis (response : result Blob) : result json :=
  match response with
  | Err e => Err e
  | Ok Absent =>
      Err {| message := Some "No analysis generated"; status := None |}
  | Ok (Malformed syntax_error) =>
      Err {| message := Some syntax_error; status := None |}
  | Ok (Parsed j) => Ok j
  end.

(** [analyzeProfile]: the fast tier first, two retries from 1500 ms,
    the higher tier as fallback. *)
Definition analyzeProfile (flash : nat → result Blob) (pro : result Blob)
    : list Event * result json :=
  retryOperation (λ k, runAnalysis (flash k)) 0 2 1500
    (Some (runAnalysis pro)).

(** ChatSession's analysis action, as far as the profile goes:
    [updateProfile(await analyzeProfile(log, profile))], and on a
    failure an alert that leaves the profile alone. *)
Definition merge_profile (flash : nat → result Blob) (pro : result Blob)
    (now : string) (profile : json) : json :=
  match (analyzeProfile flash pro).2 with
  | Ok newProfile => handleUpdateProfile now newProfile
  | Err _ => profile
  end.

(** A completion of the synthesizer that has one of the six fields,
    and the profile the analysis action makes of it. *)
Definition example_completion : json :=
  JObj [("values", JArr [JStr "directness"])].

Definition example_merged : json :=
  merge_profile (λ _, Ok (Parsed example_completion)) (Ok Absent)
    "2026/1/1" INITIAL_PROFILE.

End Json.

(** ** Session Store for prompt-engineering sessions (App.tsx) *)

Module PromptStore.

Record PromptSession := {
  id : string;
  title : string;
  timestamp : Z;
  dateStr : string;
  messages : list ChatMessage;
  isDeleted : option bool
}.

(** [{ ...s, isDeleted: b }] *)
Definition with_isDeleted (b : option bool) (s : PromptSession) : PromptSession :=
  {| id := id s; title := title s; timestamp := timestamp s;
     dateStr := dateStr s; messages := messages s; isDeleted := b |}.

(** [prev.findIndex(s => s.id === id)] *)
Fixpoint findIndex (i : string) (prev : list PromptSession) : option nat :=
  match prev with
  | [] => None
  | s :: rest => if String.eqb (id s) i then Some 0 else S <$> findIndex i rest
  end.

Definition handleSavePromptSession (session : PromptSession)
    (prev : list PromptSession) : list PromptSession :=
  match findIndex (id session) prev with
  | Some idx =>
      <[idx := with_isDeleted (prev !! idx ≫= isDeleted) session]> prev
  | None => prev ++ [session]
  end.

Definition handleDeletePromptSession (i : string)
    (prev : list PromptSession) : list PromptSession :=
  (λ s, if String.eqb (id s) i then with_isDeleted (Some true) s else s) <$> prev.

Definition handleRestorePromptSession (i : string)
    (prev : list PromptSession) : list PromptSession :=
  (λ s, if String.eqb (id s) i then with_isDeleted (Some false) s else s) <$> prev.

(** [!s.isDeleted]: a missing flag counts as not deleted. *)
Definition not_deleted (s : PromptSession) : bool :=
  negb (default false (isDeleted s)).

(** [handleEmptyRecycleBin]; [confirmed] is the answer to
    [window.confirm]. *)
Definition handleEmptyRecycleBin (confirmed : bool)
    (prev : list PromptSession) : list PromptSession :=
  if confirmed then filter (λ s, not_deleted s = true) prev else prev.

(** Two sessions that differ in the deletion flag at most. *)
Definition same_but_flag (s s' : PromptSession) : Prop :=
  id s' = id s ∧ title s' = title s ∧ timestamp s' = timestamp s
  ∧ dateStr s' = dateStr s ∧ messages s' = messages s.

Definition example_session (i : string) (flag : option bool) : PromptSession :=
  {| id := i; title := "draft"; timestamp := 1700000000000; dateStr := "2023/11/14";
     messages := [ ChatTurn.example_message USER "write a prompt" ];
     isDeleted := flag |}.

Definition example_store : list PromptSession :=
  [ example_session "a" None; example_session "b" (Some false) ].

End PromptStore.

(** ** Live Audio Turn Engine (the LiveSession component) *)

Module LiveAudio.

(** What the handler finds when it reads
    [content?.modelTurn?.parts[0]?.inlineData?.data] and, if that is
    truthy, decodes it. *)
Inductive Audio (T : Type) :=
| NoAudio      (* no server content, no model turn, no first part, or
                  no (or empty) data in it: the read is falsy *)
| NoParts      (* a model turn without [parts]: [parts[0]] throws *)
| Undecodable  (* data on which [decodeAudioData] throws: not base64,
                  an odd number of bytes, or no frame *)
| Frame (d : T). (* data that decodes to a buffer of duration [d] *)
Arguments NoAudio {T}.
Arguments NoParts {T}.
Arguments Undecodable {T}.
Arguments Frame {T} _.

(** The parts of a [LiveServerMessage] the handler reads; the
    transcription texts are [""] when absent, which is falsy like
    [undefined]. *)
Record ServerMessage (T : Type) := {
  audio : Audio T;
  inputTranscription : string;
  outputTranscription : string;
  turnComplete : bool;
  interrupted : bool
}.
Arguments audio {T} _.
Arguments inputTranscription {T} _.
Arguments outputTranscription {T} _.
Arguments turnComplete {T} _.
Arguments interrupted {T} _.

(** One call [source.start(when)]: which source, the value of
    [ctx.currentTime] the handler read, the start time passed, and the
    duration of the source's buffer. *)
Record Scheduled (T : Type) := {
  source : nat;
  at_clock : T;
  start : T;
  duration : T
}.
Arguments source {T} _.
Arguments at_clock {T} _.
Arguments start {T} _.
Arguments duration {T} _.

(** The refs of the component, and the two effects on the audio graph
    the handler has ([started], [stopped]).  A source is named by the
    number of sources created before it. *)
Record State (T : Type) := {
  nextStartTime : T;
  sources : gset nat;
  audioContext : bool;
  userTextBuffer : string;
  modelTextBuffer : string;
  currentTranscript : list (MessageRole * string);
  started : list (Scheduled T);
  stopped : gset nat
}.
Arguments nextStartTime {T} _.
Arguments sources {T} _.
Arguments audioContext {T} _.
Arguments userTextBuffer {T} _.
Arguments modelTextBuffer {T} _.
Arguments currentTranscript {T} _.
Arguments started {T} _.
Arguments stopped {T} _.

(** How a block of the handler ends: it falls through to the next
    block, or it throws, which ends the handler (there is no [try]
    around it).  Either way the refs are as the block left them. *)
Inductive Completion (S : Type) :=
| Done (s : S)
| Thrown (s : S).
Arguments Done {S} _.
Arguments Thrown {S} _.

Section Scheduling.

(** Times are JavaScript numbers in the source; the engine only adds
    them, takes [Math.max] of them and resets to [0]. *)
Context {T : Type} (zero : T) (add : T → T → T) (max : T → T → T).

(** The [// Handle Audio] block.  The read of the data comes first;
    with data and a live audio context, [nextStartTime] is raised to
    the clock before [decodeAudioData] is awaited, so a throw of the
    decoder leaves it raised. *)
Definition handle_audio (clock : T) (msg : ServerMessage T) (st : State T)
    : Completion (State T) :=
  let raised :=
    {| nextStartTime := max (nextStartTime st) clock;
       sources := sources st;
       audioContext := audioContext st;
       userTextBuffer := userTextBuffer st;
       modelTextBuffer := modelTextBuffer st;
       currentTranscript := currentTranscript st;
       started := started st;
       stopped := stopped st |} in
  match audio msg with
  | NoParts => Thrown st
  | NoAudio => Done st
  | Undecodable => if audioContext st then Thrown raised else Done st
  | Frame d =>
      if audioContext st then
        let next := max (nextStartTime st) clock in
        let src := length (started st) in
        Done
          {| nextStartTime := add next d;
             sources := {[ src ]} ∪ sources st;
             audioContext := audioContext st;
             userTextBuffer := userTextBuffer st;
             modelTextBuffer := modelTextBuffer st;
             currentTranscript := currentTranscript st;
             started := started st ++
               [ {| source := src; at_clock := clock; start := next; duration := d |} ];
             stopped := stopped st |}
      else Done st
  end.

(** The [// Handle Text Transcription for History] block. *)
Definition handle_transcription (msg : ServerMessage T) (st : State T) : State T :=
  let user := userTextBuffer st +:+ inputTranscription msg in
  let model := modelTextBuffer st +:+ outputTranscription msg in
  let flush (role : MessageRole) (buffer : string) :=
    if String.eqb buffer "" then [] else [(role, buffer)] in
  {| nextStartTime := nextStartTime st;
     sources := sources st;
     audioContext := audioContext st;
     userTextBuffer := if turnComplete msg then "" else user;
     modelTextBuffer := if turnComplete msg then "" else model;
     currentTranscript :=
       if turnComplete msg
       then currentTranscript st ++ flush USER user ++ flush MODEL model
       else currentTranscript st;
     started := started st;
     stopped := stopped st |}.

(** The [if (msg.serverContent?.interrupted)] block:
    [sources.forEach(s => s.stop()); sources.clear(); nextStartTime = 0]. *)
Definition handle_interrupted (msg : ServerMessage T) (st : State T) : State T :=
  if interrupted msg then
    {| nextStartTime := zero;
       sources := ∅;
       audioContext := audioContext st;
       userTextBuffer := userTextBuffer st;
       modelTextBuffer := modelTextBuffer st;
       currentTranscript := currentTranscript st;
       started := started st;
       stopped := stopped st ∪ sources st |}
  else st.

(** [onmessage], run at playback clock [clock]: the three blocks in
    the order of the source, the last two skipped when the first one
    throws.  The one [await] in it is on [decodeAudioData], which never
    suspends on anything outside, so a message is handled before the
    next one is looked at. *)
Definition onmessage (clock : T) (msg : ServerMessage T) (st : State T) : State T :=
  match handle_audio clock msg st with
  | Done st' => handle_interrupted msg (handle_transcription msg st')
  | Thrown st' => st'
  end.

(** The ['ended'] listener of a source. *)
Definition ended (src : nat) (st : State T) : State T :=
  {| nextStartTime := nextStartTime st;
     sources := sources st ∖ {[ src ]};
     audioContext := audioContext st;
     userTextBuffer := userTextBuffer st;
     modelTextBuffer := modelTextBuffer st;
     currentTranscript := currentTranscript st;
     started := started st;
     stopped := stopped st |}.

Inductive Input :=
| Message (clock : T) (msg : ServerMessage T)
| Ended (src : nat).

Definition step (st : State T) (i : Input) : State T :=
  match i with
  | Message clock msg => onmessage clock msg st
  | Ended src => ended src st
  end.

Definition run (st : State T) (inputs : list Input) : State T :=
  foldl step st inputs.

Definition is_interruption (i : Input) : bool :=
  match i with
  | Message _ msg => interrupted msg
  | Ended _ => false
  end.

(** Whether the handler throws at a message, given whether the audio
    context is live. *)
Definition throws (live : bool) (msg : ServerMessage T) : bool :=
  match audio msg with
  | NoParts => true
  | Undecodable => live
  | NoAudio | Frame _ => false
  end.

(** Whether an input carries audio data the decoder throws on. *)
Definition is_undecodable (i : Input) : bool :=
  match i with
  | Message _ msg => if audio msg is Undecodable then true else false
  | Ended _ => false
  end.

(** The audio frames a run of inputs delivers: for each message whose
    audio decodes, the clock it is handled at and the duration of its
    buffer. *)
Definition frames (inputs : list Input) : list (T * T) :=
  omap (λ i, match i with
             | Message clock msg =>
                 if audio msg is Frame d then Some (clock, d) else None
             | Ended _ => None
             end) inputs.

(** The scheduled end of a frame. *)
Definition end_time (f : Scheduled T) : T := add (start f) (duration f).

(** A frame scheduled behind the running end [p]: not before [p], not
    before the clock read for it, and, where [exact] holds, at the
    later of the two. *)
Definition follows (le : T → T → Prop) (exact : Prop) (p : T) (f : Scheduled T)
    : Prop :=
  le p (start f) ∧ le (at_clock f) (start f)
  ∧ (exact → start f = max p (at_clock f)).

(** A list of frames in which the first follows [p0] and each later
    one the scheduled end of the one before. *)
Definition chained (le : T → T → Prop) (exact : Prop) (p0 : T)
    (fs : list (Scheduled T)) : Prop :=
  (∀ f, head fs = Some f → follows le exact p0 f)
  ∧ ∀ n a b, fs !! n = Some a → fs !! S n = Some b →
      follows le exact (end_time a) b.

(** Frames scheduled back to back: each one starts at the later of
    the clock read for it and the scheduled end of the one before, so
    not before that end. *)
Definition gapless (le : T → T → Prop) (frames : list (Scheduled T)) : Prop :=
  ∀ n a b, frames !! n = Some a → frames !! S n = Some b →
    start b = max (end_time a) (at_clock b)
    ∧ le (add (start a) (duration a)) (start b).

End Scheduling.

(** Examples, with times in audio samples: three frames of model
    audio, the second arriving late, and a barge-in. *)
Definition example_frame (d : Z) : ServerMessage Z :=
  {| audio := Frame d; inputTranscription := ""; outputTranscription := "";
     turnComplete := false; interrupted := false |}.

Definition example_interruption : ServerMessage Z :=
  {| audio := NoAudio; inputTranscription := ""; outputTranscription := "";
     turnComplete := false; interrupted := true |}.

(** A barge-in in a message whose audio data does not decode. *)
Definition example_garbled_interruption : ServerMessage Z :=
  {| audio := Undecodable; inputTranscription := ""; outputTranscription := "";
     turnComplete := false; interrupted := true |}.

Definition example_open : State Z :=
  {| nextStartTime := 100%Z; sources := ∅; audioContext := true;
     userTextBuffer := ""; modelTextBuffer := ""; currentTranscript := [];
     started := []; stopped := ∅ |}.

Definition example_inputs : list (@Input Z) :=
  [ Message 120%Z (example_frame 4800); Message 9000%Z (example_frame 2400);
    Ended 0; Message 9100%Z (example_frame 2400) ].

(** A frame, a barge-in while it plays, and the next frame. *)
Definition example_barge_in : list (@Input Z) :=
  [ Message 120%Z (example_frame 4800);
    Message 200%Z example_interruption;
    Message 300%Z (example_frame 2400) ].

(** The scheduling property as the specification words it: of the
    frames scheduled while the session is open, each one starts at the
    later of the playback clock and the scheduled end of the one
    before, so not before that end. *)
Definition spec_gapless_property : Prop :=
  ∀ (st : State Z) (inputs : list (@Input Z)),
    audioContext st = true →
    gapless Z.add Z.max Z.le
      (drop (length (started st)) (started (run 0%Z Z.add Z.max st inputs))).

(** The interruption property as the specification words it: whenever
    a message carries the interruption signal, the set of scheduled
    sources is empty and the scheduling clock is reset when the message
    has been handled. *)
Definition spec_interruption_property : Prop :=
  ∀ (clock : Z) (msg : ServerMessage Z) (st : State Z),
    interrupted msg = true →
    sources (onmessage 0%Z Z.add Z.max clock msg st) = ∅
    ∧ nextStartTime (onmessage 0%Z Z.add Z.max clock msg st) = 0%Z.

End LiveAudio.

(** ** Decision records and the profile they snapshot *)

Module Decisions.

(** Profiles are JavaScript objects holding arrays: both are mutable
    and shared by reference, so they live in a heap. *)
Definition loc := positive.

Record ProfileObj := {
  o_values : loc;
  o_personalityTraits : loc;
  o_mentalModels : loc;
  o_workHabits : loc;
  o_decisionPrinciples : loc;
  o_interests : loc;
  o_lastUpdated : string
}.

Inductive Cell :=
| Arr (items : list string)
| Obj (o : ProfileObj).

Abbreviation Heap := (gmap loc Cell).

Definition alloc (c : Cell) (h : Heap) : loc * Heap :=
  let l := fresh (dom h) in (l, <[l := c]> h).

Definition read_array (h : Heap) (l : loc) : option (list string) :=
  match h !! l with
  | Some (Arr items) => Some items
  | _ => None
  end.

Definition read_obj (h : Heap) (l : loc) : option ProfileObj :=
  match h !! l with
  | Some (Obj o) => Some o
  | _ => None
  end.

(** The value a profile reference stands for. *)
Definition read_profile (h : Heap) (l : loc) : option UserMemoryProfile :=
  o ← read_obj h l;
  v ← read_array h (o_values o);
  t ← read_array h (o_personalityTraits o);
  m ← read_array h (o_mentalModels o);
  w ← read_array h (o_workHabits o);
  d ← read_array h (o_decisionPrinciples o);
  i ← read_array h (o_interests o);
  Some {| values := v; personalityTraits := t; mentalModels := m;
          workHabits := w; decisionPrinciples := d; interests := i;
          lastUpdated := o_lastUpdated o |}.

(** [JSON.parse] of the text of a profile: six new arrays and a new
    object. *)
Definition alloc_profile (p : UserMemoryProfile) (h : Heap) : loc * Heap :=
  let '(v, h) := alloc (Arr (values p)) h in
  let '(t, h) := alloc (Arr (personalityTraits p)) h in
  let '(m, h) := alloc (Arr (mentalModels p)) h in
  let '(w, h) := alloc (Arr (workHabits p)) h in
  let '(d, h) := alloc (Arr (decisionPrinciples p)) h in
  let '(i, h) := alloc (Arr (interests p)) h in
  alloc (Obj {| o_values := v; o_personalityTraits := t; o_mentalModels := m;
                o_workHabits := w; o_decisionPrinciples := d; o_interests := i;
                o_lastUpdated := lastUpdated p |}) h.

(** [JSON.parse(JSON.stringify(profile))]: the text carries the value
    of the profile and nothing of its references. *)
Definition deep_copy (l : loc) (h : Heap) : option (loc * Heap) :=
  p ← read_profile h l; Some (alloc_profile p h).

Record Expert := {
  e_role : string;
  style : string;
  opinion : string
}.

Record DecisionRecord := {
  id : string;
  timestamp : string;
  question : string;
  decision : string;
  expertOpinions : option (list Expert);
  contextProfile : loc
}.

(** The part of App's state the decisions and the profile live in. *)
Record AppState := {
  heap : Heap;
  profile : loc;
  decisions : list DecisionRecord
}.

(** The props a render of DecisionSimulator closes over. *)
Record Props := {
  p_profile : loc;
  p_decisions : list DecisionRecord
}.

Definition render (st : AppState) : Props :=
  {| p_profile := profile st; p_decisions := decisions st |}.

(** [handleSimulate] up to [newRecord].  The guards run when the
    handler is called and the record is built when [simulateHybridDecision]
    has answered, on the heap [h] of that moment; both read the
    [profile] of the render the handler belongs to.  [None]: an early
    return or a failed call, and no record. *)
Definition newRecord (props : Props) (question : string) (isSimulating : bool)
    (result : Gateway.result (string * option (list Expert)))
    (now_id now_ts : string) (h0 h : Heap) : option (DecisionRecord * Heap) :=
  if JsString.blank question || isSimulating then None
  else
    p ← read_profile h0 (p_profile props);
    if bool_decide (length (values p) = 0)
       && bool_decide (length (decisionPrinciples p) = 0)
    then None
    else
      match result with
      | Gateway.Err _ => None
      | Gateway.Ok (decision, experts) =>
          '(snapshot, h') ← deep_copy (p_profile props) h;
          Some ({| id := now_id; timestamp := now_ts; question := question;
                   decision := decision; expertOpinions := experts;
                   contextProfile := snapshot |}, h')
      end.

(** [handleAddDecision] of the same render: [[...decisions, record]]. *)
Definition handleAddDecision (props : Props) (record : DecisionRecord)
    (st : AppState) : AppState :=
  {| heap := heap st; profile := profile st;
     decisions := p_decisions props ++ [record] |}.

Inductive Category :=
| Values | PersonalityTraits | MentalModels | WorkHabits
| DecisionPrinciples | Interests.

Definition get_category (c : Category) (o : ProfileObj) : loc :=
  match c with
  | Values => o_values o
  | PersonalityTraits => o_personalityTraits o
  | MentalModels => o_mentalModels o
  | WorkHabits => o_workHabits o
  | DecisionPrinciples => o_decisionPrinciples o
  | Interests => o_interests o
  end.

(** [{ ...o, [key]: l }] *)
Definition set_category (c : Category) (l : loc) (o : ProfileObj) : ProfileObj :=
  {| o_values := if c is Values then l else o_values o;
     o_personalityTraits := if c is PersonalityTraits then l else o_personalityTraits o;
     o_mentalModels := if c is MentalModels then l else o_mentalModels o;
     o_workHabits := if c is WorkHabits then l else o_workHabits o;
     o_decisionPrinciples := if c is DecisionPrinciples then l else o_decisionPrinciples o;
     o_interests := if c is Interests then l else o_interests o;
     o_lastUpdated := o_lastUpdated o |}.

(** App's [handleUpdateProfile]: a new object
    [{ ...newProfile, lastUpdated }] that shares the arrays of
    [newProfile], installed as the profile. *)
Definition handleUpdateProfile (now : string) (newProfile : loc)
    (st : AppState) : AppState :=
  match read_obj (heap st) newProfile with
  | Some o =>
      let '(updated, h) :=
        alloc (Obj {| o_values := o_values o;
                      o_personalityTraits := o_personalityTraits o;
                      o_mentalModels := o_mentalModels o;
                      o_workHabits := o_workHabits o;
                      o_decisionPrinciples := o_decisionPrinciples o;
                      o_interests := o_interests o;
                      o_lastUpdated := now |}) (heap st) in
      {| heap := h; profile := updated; decisions := decisions st |}
  | None => st
  end.

(** Dashboard's [updateProfileSection]:
    [onImportProfile({ ...profile, [key]: newItems })]. *)
Definition updateProfileSection (now : string) (c : Category) (newItems : loc)
    (st : AppState) : AppState :=
  match read_obj (heap st) (profile st) with
  | Some o =>
      let '(newProfile, h) := alloc (Obj (set_category c newItems o)) (heap st) in
      handleUpdateProfile now newProfile
        {| heap := h; profile := profile st; decisions := decisions st |}
  | None => st
  end.

(** The items a card shows: [Array.isArray(items) ? items : []]. *)
Definition safeItems (c : Category) (st : AppState) : list string :=
  default [] (o ← read_obj (heap st) (profile st);
              read_array (heap st) (get_category c o)).

(** Card's [handleAddItem]. *)
Definition handleAddItem (now : string) (c : Category) (newItem : string)
    (st : AppState) : AppState :=
  if JsString.blank newItem then st
  else if bool_decide (JsString.trim newItem ∈ safeItems c st) then st
  else
    let '(newItems, h) :=
      alloc (Arr (safeItems c st ++ [JsString.trim newItem])) (heap st) in
    updateProfileSection now c newItems
      {| heap := h; profile := profile st; decisions := decisions st |}.

(** Card's [handleRemoveItem]: [newItems = [...safeItems]] is a new
    array, and [newItems.splice(index, 1)] then writes to it in place. *)
Definition handleRemoveItem (now : string) (c : Category) (index : nat)
    (st : AppState) : AppState :=
  let '(newItems, h) := alloc (Arr (safeItems c st)) (heap st) in
  let h := <[newItems := Arr (delete index (safeItems c st))]> h in
  updateProfileSection now c newItems
    {| heap := h; profile := profile st; decisions := decisions st |}.

(** A profile that arrives as text (an imported file after
    sanitizing, or the synthesizer's completion) is parsed into new
    objects and handed to [handleUpdateProfile]. *)
Definition install_parsed (now : string) (p : UserMemoryProfile)
    (st : AppState) : AppState :=
  let '(newProfile, h) := alloc_profile p (heap st) in
  handleUpdateProfile now newProfile
    {| heap := h; profile := profile st; decisions := decisions st |}.

(** The ways the profile changes. *)
Inductive Mutation :=
| AddItem (c : Category) (newItem : string)
| RemoveItem (c : Category) (index : nat)
| Import (p : UserMemoryProfile)
| Merge (p : UserMemoryProfile).

Definition mutate (st : AppState) (m : string * Mutation) : AppState :=
  match m with
  | (now, AddItem c newItem) => handleAddItem now c newItem st
  | (now, RemoveItem c index) => handleRemoveItem now c index st
  | (now, Import p) => install_parsed now p st
  | (now, Merge p) => install_parsed now p st
  end.

Definition mutate_all (st : AppState) (ms : list (string * Mutation)) : AppState :=
  foldl mutate st ms.

(** [handleSimulate], from the click in state [st0] (whose render the
    handler belongs to) to the state after [addDecision]; [during] are
    the profile changes made while the Gateway call was awaited. *)
Definition handleSimulate (question : string) (isSimulating : bool)
    (result : Gateway.result (string * option (list Expert)))
    (now_id now_ts : string) (during : list (string * Mutation))
    (st0 : AppState) : option DecisionRecord * AppState :=
  let st := mutate_all st0 during in
  match newRecord (render st0) question isSimulating result now_id now_ts
          (heap st0) (heap st) with
  | Some (record, h) =>
      (Some record,
       handleAddDecision (render st0) record
         {| heap := h; profile := profile st; decisions := decisions st |})
  | None => (None, st)
  end.

(** A state extends another when the heap has only grown and the
    decisions are the same. *)
Definition extends (st st' : AppState) : Prop :=
  heap st ⊆ heap st' ∧ decisions st' = decisions st.

(** An application state whose profile is [ChatTurn.example_profile],
    and some changes of the profile. *)
Definition example_app : AppState :=
  let '(l, h) := alloc_profile ChatTurn.example_profile ∅ in
  {| heap := h; profile := l; decisions := [] |}.

Definition example_simulation : option DecisionRecord * AppState :=
  handleSimulate "Take the offer?" false
    (Gateway.Ok ("I would take it.", None)) "1" "2026/1/1" [] example_app.

Definition example_edits : list (string * Mutation) :=
  [ ("2026/1/2", RemoveItem Values 0);
    ("2026/1/3", AddItem Interests " chess ");
    ("2026/1/4", Import {| values := []; personalityTraits := ["curious"];
                           mentalModels := []; workHabits := [];
                           decisionPrinciples := []; interests := [];
                           lastUpdated := "2025/12/31" |}) ].

End Decisions.

(** ** Chat requests and their tiers (sendChatMessage) *)

Module ChatGateway.

Import Gateway.

Inductive Model := MODEL_CHAT_PRO | MODEL_CHAT_FLASH.

Global Instance Model_eq_dec : EqDecision Model.
Proof. solve_decision. Defined.

(** The fields of an attachment, under names the fields of [options]
    do not hide. *)
Definition attachment_mimeType (f : FileData) : string := mimeType f.
Definition attachment_data (f : FileData) : string := data f.

(** The [options] argument.  A string option that is [""] is falsy like
    a missing one. *)
Record Options := {
  useThinking : bool;
  useSearch : bool;
  fileData : option FileData;
  image : option string;
  mimeType : option string;
  systemInstruction : option string
}.

(** Truthiness of an optional string. *)
Definition given (s : option string) : option string :=
  match s with
  | Some t => if String.eqb t "" then None else Some t
  | None => None
  end.

Inductive RequestPart :=
| TextPart (text : string)
| InlineData (mimeType data : string).

Record Config := {
  thinkingBudget : option Z;
  googleSearch : bool;
  config_systemInstruction : option string
}.

Definition primaryModel (options : Options) : Model :=
  if useThinking options then MODEL_CHAT_PRO
  else if useSearch options then MODEL_CHAT_FLASH else MODEL_CHAT_PRO.

(** [getConfig(targetModel)]; the target model is not looked at. *)
Definition getConfig (options : Options) (targetModel : Model) : Config :=
  {| thinkingBudget := if useThinking options then Some 4096%Z else None;
     googleSearch := useSearch options;
     config_systemInstruction := given (systemInstruction options) |}.

(** [parts]: the text, with the attachment put in front of it by
    [unshift]. *)
Definition parts (options : Options) (message : string) : list RequestPart :=
  match fileData options with
  | Some f =>
      [ InlineData (attachment_mimeType f) (attachment_data f);
        TextPart message ]
  | None =>
      match given (image options) with
      | Some img =>
          [ InlineData (default "image/jpeg" (given (mimeType options))) img;
            TextPart message ]
      | None => [ TextPart message ]
      end
  end.

Definition fallback (options : Options) : option Model :=
  if useThinking options && bool_decide (primaryModel options = MODEL_CHAT_PRO)
  then Some MODEL_CHAT_FLASH else None.

(** [sendChatMessage].  [getAI] throws, before anything is sent, when
    no API key is stored ([apiKey] is [localStorage.getItem], a missing
    or empty key being falsy; [no_key] is the error it throws).
    [chat m k] is the outcome of the [k]-th [runChat(m)]. *)
Definition sendChatMessage {R} (apiKey : option string) (no_key : JsError)
    (chat : Model → nat → result R) (options : Options)
    : list Event * result R :=
  match given apiKey with
  | None => ([], Err no_key)
  | Some _ =>
      retryOperation (chat (primaryModel options)) 0 2 1000
        ((λ m, chat m 0) <$> fallback options)
  end.

(** The model each event of a trace went to. *)
Definition models_called (options : Options) (tr : list Event) : list Model :=
  omap (λ e, match e with
             | Attempt => Some (primaryModel options)
             | Fallback => fallback options
             | Sleep _ => None
             end) tr.

End ChatGateway.

(** ** Task extraction (extractTasksFromText) *)

Module TaskExtractor.

Import Gateway Json.

(** What a property read on [null] throws (the text is the engine's). *)
Definition null_read (key : string) : JsError :=
  {| message := Some ("Cannot read properties of null (reading '" +:+ key +:+ "')");
     status := None |}.

(** [runExtraction]:
    [JSON.parse(response.text || '{"tasks": []}').tasks || []]. *)
Definition runExtraction (response : result Blob) : result json :=
  match response with
  | Err e => Err e
  | Ok Absent => Ok (JArr [])
  | Ok (Malformed syntax_error) =>
      Err {| message := Some syntax_error; status := None |}
  | Ok (Parsed JNull) => Err (null_read "tasks")
  | Ok (Parsed j) =>
      if truthy (get j "tasks") then Ok (default JNull (get j "tasks"))
      else Ok (JArr [])
  end.

(** [extractTasksFromText]: two retries from one second, no fallback. *)
Definition extractTasksFromText (responses : nat → result Blob)
    : list Event * result json :=
  retryOperation (λ k, runExtraction (responses k)) 0 2 1000 None.

End TaskExtractor.

(** ** Chat sessions: titles, storing, and the end of a turn *)

Module ChatStore.

(** The two messages the end of a turn appends. *)
Definition reply_message (i content : string) (thinking : bool)
    (grounding : option (list (string * string))) : ChatMessage :=
  {| id := i; role := MODEL; content := content; image := None;
     fileData := None; isThinking := Some thinking; groundingUrls := grounding |}.

Definition error_message (i content : string) : ChatMessage :=
  {| id := i; role := MODEL; content := content; image := None;
     fileData := None; isThinking := None; groundingUrls := None |}.

Record ChatSessionRecord := {
  id : string;
  title : string;
  timestamp : Z;
  dateStr : string;
  messages : list ChatMessage
}.

(** [arr.find(m => m.role === MessageRole.USER)] *)
Definition firstUser (msgs : list ChatMessage) : option ChatMessage :=
  snd <$> list_find (λ m, role m = USER) msgs.

(** The title of a session: the content of the first user message cut
    to [limit] code units, with ["..."] when something was cut;
    ChatSession cuts at 15, PromptEngineer at 20. *)
Definition make_title (limit : nat) (default_title : string)
    (msgs : list ChatMessage) : string :=
  match firstUser msgs with
  | Some m =>
      String.substring 0 limit (content m)
        +:+ (if Nat.ltb limit (String.length (content m)) then "..." else "")
  | None => default_title
  end.

(** ChatSession's [handleSave]: the record handed to [saveSession];
    nothing is saved while there is no current session.  [now] and
    [dateStr] are the clock readings. *)
Definition handleSave (DEFAULT_TITLE : string) (currentSessionId : option string)
    (now : Z) (dateStr : string) (updatedMessages : list ChatMessage)
    : option ChatSessionRecord :=
  match ChatGateway.given currentSessionId with
  | Some i =>
      Some {| id := i; title := make_title 15 DEFAULT_TITLE updatedMessages;
              timestamp := now; dateStr := dateStr; messages := updatedMessages |}
  | None => None
  end.

(** [prev.findIndex(s => s.id === id)] *)
Fixpoint findIndex (i : string) (prev : list ChatSessionRecord) : option nat :=
  match prev with
  | [] => None
  | s :: rest => if String.eqb (id s) i then Some 0 else S <$> findIndex i rest
  end.

(** App's [handleSaveChatSession]. *)
Definition handleSaveChatSession (session : ChatSessionRecord)
    (prev : list ChatSessionRecord) : list ChatSessionRecord :=
  match findIndex (id session) prev with
  | Some idx => <[idx := session]> prev
  | None => prev ++ [session]
  end.

Definition saveSession (session : option ChatSessionRecord)
    (prev : list ChatSessionRecord) : list ChatSessionRecord :=
  match session with
  | Some s => handleSaveChatSession s prev
  | None => prev
  end.

(** How the awaited [sendChatMessage] ends: a response, with its text
    and the web sources of its grounding chunks, or an error. *)
Inductive Outcome :=
| Answered (text : option string) (grounding : option (list (string * string)))
| Failed (e : Gateway.JsError).

(** The clock readings of one turn. *)
Record Clock := {
  user_id : string;        (* [Date.now().toString()] of the user message *)
  reply_id : string;       (* [(Date.now() + 1).toString()] *)
  error_id : string;
  first_save : Z * string; (* [Date.now()], [toLocaleString()] *)
  last_save : Z * string
}.

(** What a turn leaves: the messages on screen and the stored
    sessions. *)
Record View := {
  shown : list ChatMessage;
  sessions : list ChatSessionRecord
}.

(** [msgsToKeep] of [handleRegenerate]. *)
Definition msgsToKeep (st : ChatTurn.State) : list ChatMessage :=
  match last (ChatTurn.messages st) with
  | Some lastMsg =>
      if role lastMsg is MODEL then slice_init (ChatTurn.messages st)
      else ChatTurn.messages st
  | None => ChatTurn.messages st
  end.

Section Turn.

Context (JSON_stringify : UserMemoryProfile → string).
(** The two texts of the source that are not in the code units this
    development writes: the title of a session without user message and
    the prefix of an error message. *)
Context (DEFAULT_TITLE ERROR_PREFIX : string).

(** A whole turn, from the click to the end of [handleSend]: [None]
    when nothing is dispatched.  On a response the log the request was
    built from, with the reply, is shown and saved; on an error the
    error message is appended to what is on screen
    ([setMessages(prev => [...prev, errMsg])]) and nothing is saved. *)
Definition turn (a : ChatTurn.Action) (clock : Clock)
    (currentSessionId : option string) (outcome : Outcome)
    (st : ChatTurn.State) (prev : list ChatSessionRecord) : option View :=
  d ← ChatTurn.dispatch JSON_stringify a (user_id clock) st;
  let on_screen :=
    match a with
    | ChatTurn.SendInput => ChatTurn.newMessages d
    | ChatTurn.Regenerate => msgsToKeep st
    end in
  let stored :=
    if ChatTurn.saved d
    then saveSession
           (handleSave DEFAULT_TITLE currentSessionId (first_save clock).1
              (first_save clock).2 (ChatTurn.newMessages d)) prev
    else prev in
  match outcome with
  | Answered text grounding =>
      let aiMsg :=
        reply_message (reply_id clock)
          (default "No response text." (ChatGateway.given text))
          (ChatTurn.useThinking st) grounding in
      let finalMessages := ChatTurn.newMessages d ++ [aiMsg] in
      Some {| shown := finalMessages;
              sessions :=
                saveSession
                  (handleSave DEFAULT_TITLE currentSessionId (last_save clock).1
                     (last_save clock).2 finalMessages) stored |}
  | Failed e =>
      let errMsg :=
        error_message (error_id clock)
          (ERROR_PREFIX +:+ default "undefined" (Gateway.message e)) in
      Some {| shown := on_screen ++ [errMsg]; sessions := stored |}
  end.

End Turn.

Definition example_clock : Clock :=
  {| user_id := "1"; reply_id := "2"; error_id := "3";
     first_save := (1%Z, "2026/1/1"); last_save := (2%Z, "2026/1/1") |}.

(** The example session after a reply, with regeneration asked for. *)
Definition example_replied : ChatTurn.State :=
  {| ChatTurn.messages :=
       [ ChatTurn.example_message USER "question";
         ChatTurn.example_message MODEL "first answer" ];
     ChatTurn.input := ""; ChatTurn.attachment := None;
     ChatTurn.imagePreview := None;
     ChatTurn.isLoading := false; ChatTurn.isAnalyzing := false;
     ChatTurn.useThinking := false; ChatTurn.useSearch := false;
     ChatTurn.profile := ChatTurn.example_profile |}.

End ChatStore.

(** ** The gallery, the points and the creative studio *)

Module Studio.

Inductive GalleryItemType := image | video.

Record GalleryItem := {
  id : string;
  type : GalleryItemType;
  content : string;
  prompt : string;
  timestamp : Z;
  createdAt : string;
  cost : Z
}.

(** App's [handleAddToGallery]:
    [[item, ...gallery]], and [pop()] when that is more than 20. *)
Definition handleAddToGallery (item : GalleryItem) (gallery : list GalleryItem)
    : list GalleryItem :=
  let newGallery := item :: gallery in
  if Nat.ltb 20 (length newGallery)
  then take (length newGallery - 1) newGallery
  else newGallery.

(** App's [handleDeductPoints]: [Math.max(0, points - amount)]. *)
Definition handleDeductPoints (amount : Z) (points : Z) : Z :=
  Z.max 0 (points - amount).

Inductive Tab := gen | edit | video_tab.

(** [COSTS] and [getCurrentCost]. *)
Definition getCurrentCost (activeTab : Tab) : Z :=
  match activeTab with
  | gen => 10
  | edit => 5
  | video_tab => 50
  end%Z.

(** The points and the gallery of App's state. *)
Record State := {
  points : Z;
  gallery : list GalleryItem
}.

(** CreativeStudio's [execute], on the points and the gallery of the
    render it was started in (its props and the two App handlers it
    calls close over the same render).  [generated] is how the awaited
    calls of the active tab end (the URL of the result, or an error);
    [sourceImage] is the uploaded image, a missing or empty one being
    falsy; [now] and [createdAt] are the clock readings. *)
Definition execute (activeTab : Tab) (prompt : string)
    (sourceImage : option string) (generated : Gateway.result string)
    (now : Z * string) (createdAt : string) (st : State) : State :=
  let cost := getCurrentCost activeTab in
  if (points st <? cost)%Z then st
  else
    let url :=
      match activeTab, ChatGateway.given sourceImage with
      | edit, None => None   (* [throw new Error(...)] before any call *)
      | _, _ =>
          match generated with
          | Gateway.Ok u => ChatGateway.given (Some u)
          | Gateway.Err _ => None
          end
      end in
    match url with
    | Some u =>
        {| points := handleDeductPoints cost (points st);
           gallery :=
             handleAddToGallery
               {| id := now.2;
                  type := if activeTab is video_tab then video else image;
                  content := u; prompt := prompt; timestamp := now.1;
                  createdAt := createdAt; cost := cost |}
               (gallery st) |}
    | None => st
    end.

End Studio.

(** ** To-dos (App.tsx) *)

Module Todos.

Record TodoItem := {
  id : string;
  text : string;
  completed : bool;
  timestamp : Z;
  source : option string
}.

(** [handleAddTodo]; [new_id] is [Date.now().toString()] followed by
    the random suffix. *)
Definition handleAddTodo (new_id : string) (now : Z) (text : string)
    (todos : list TodoItem) : list TodoItem :=
  todos ++ [ {| id := new_id; text := text; completed := false;
                timestamp := now; source := None |} ].

(** [handleAddTodos]: one item per task, each with the id and the time
    read for it. *)
Definition handleAddTodos (tasks : list (string * Z * string))
    (todos : list TodoItem) : list TodoItem :=
  todos ++
    ((λ t, {| id := t.1.1; text := t.2; completed := false;
              timestamp := t.1.2; source := None |}) <$> tasks).

Definition toggled (t : TodoItem) : TodoItem :=
  {| id := id t; text := text t; completed := negb (completed t);
     timestamp := timestamp t; source := source t |}.

Definition handleToggleTodo (i : string) (todos : list TodoItem) : list TodoItem :=
  (λ t, if String.eqb (id t) i then toggled t else t) <$> todos.

Definition handleDeleteTodo (i : string) (todos : list TodoItem) : list TodoItem :=
  filter (λ t, id t ≠ i) todos.

(** The number on the to-do button:
    [todos.filter(t => !t.completed).length]. *)
Definition pending (todos : list TodoItem) : nat :=
  length (filter (λ t, completed t = false) todos).

End Todos.

(** ** The end of a live session, and what was said in it *)

Module LiveSession.

Import LiveAudio.

Record LiveSessionRecord := {
  id : string;
  timestamp : Z;
  dateStr : string;
  durationSeconds : Z;
  transcript : list (MessageRole * string)
}.

Section Stop.

Context {T : Type}.

(** [stopSession], with the record it hands to [saveRecord], if any.
    [now] is [Date.now()] (read once for the duration and once for the
    id, [now_id]), [startTime] is [startTimeRef.current] and [dateStr]
    its local form.  [Math.round] of milliseconds over 1000 is the
    floor of that plus a half.  The connection itself is not closed. *)
Definition stopSession (now : Z) (now_id : string) (startTime : Z)
    (dateStr : string) (st : State T) : State T * option LiveSessionRecord :=
  ({| nextStartTime := nextStartTime st;
      sources := ∅;
      audioContext := false;
      userTextBuffer := "";
      modelTextBuffer := "";
      currentTranscript := [];
      started := started st;
      stopped := stopped st ∪ sources st |},
   match currentTranscript st with
   | [] => None
   | _ :: _ =>
       Some {| id := now_id; timestamp := startTime; dateStr := dateStr;
               durationSeconds := ((now - startTime + 500) `div` 1000)%Z;
               transcript := currentTranscript st |}
   end).

(** All the text of a list of pieces. *)
Definition join (pieces : list string) : string :=
  foldr String.append "" pieces.

Definition buffer (role : MessageRole) (st : State T) : string :=
  match role with
  | USER => userTextBuffer st
  | MODEL => modelTextBuffer st
  | SYSTEM => ""
  end.

(** What a speaker has said so far: the entries of the transcript
    under that role, then what is still in the buffer. *)
Definition said (role : MessageRole) (st : State T) : string :=
  join (snd <$> filter (λ e, e.1 = role) (currentTranscript st))
    +:+ buffer role st.

(** The transcription an input adds for a speaker, given whether the
    audio context is live: the text the message carries for that
    speaker, and nothing when the handler throws at the message before
    it reaches the transcription block. *)
Definition delta (role : MessageRole) (live : bool) (i : @Input T) : string :=
  match i with
  | Message _ msg =>
      if throws live msg then ""
      else
        match role with
        | USER => inputTranscription msg
        | MODEL => outputTranscription msg
        | SYSTEM => ""
        end
  | Ended _ => ""
  end.

(** The sources in the set are scheduled ones that have not been
    stopped, and the stopped ones were scheduled. *)
Definition sources_consistent (st : State T) : Prop :=
  (∀ src, src ∈ sources st ∪ stopped st → src < length (started st))
  ∧ sources st ## stopped st.

End Stop.

(** A short live session: the user speaks in two pieces, the model
    answers, the turn completes, and the user starts again. *)
Definition example_speech (input output : string) (complete : bool)
    : ServerMessage Z :=
  {| audio := NoAudio; inputTranscription := input; outputTranscription := output;
     turnComplete := complete; interrupted := false |}.

Definition example_talk : list (@Input Z) :=
  [ Message 0%Z (example_speech "good " "" false);
    Message 10%Z (example_speech "morning" "" false);
    Message 20%Z (example_speech "" "hello" true);
    Message 30%Z (example_speech "and" "" false) ].

(** The same talk with one more piece of the user's speech, in a
    message whose audio data does not decode. *)
Definition example_garbled_talk : list (@Input Z) :=
  example_talk ++
    [ Message 40%Z
        {| audio := Undecodable; inputTranscription := " then";
           outputTranscription := ""; turnComplete := false;
           interrupted := false |} ].

End LiveSession.

(** ** PCM audio on the wire (createPcmBlob, decodeAudioData) *)

Module Pcm.

(** A finite Float32 sample: [mantissa / 2 ^ exponent].  Scaling by
    32768 is exact on such values, and so is dividing a 16-bit integer
    by 32768. *)
Record Sample := {
  mantissa : Z;
  exponent : nat
}.

(** The integer part of [x * 32768], towards zero. *)
Definition scaled (x : Sample) : Z :=
  (mantissa x * 32768) ÷ 2 ^ Z.of_nat (exponent x).

(** What storing a number in an [Int16Array] keeps of its integer
    part: the value modulo 2^16, read as signed. *)
Definition ToInt16 (n : Z) : Z := ((n + 32768) `mod` 65536 - 32768)%Z.

(** The two bytes of a 16-bit element in the [Uint8Array] over the same
    buffer (little-endian, as on the platforms browsers run on). *)
Definition low_byte (k : Z) : Z := (k `mod` 256)%Z.
Definition high_byte (k : Z) : Z := ((k `div` 256) `mod` 256)%Z.

Definition is_byte (b : Z) : Prop := (0 ≤ b < 256)%Z.
Definition is_int16 (k : Z) : Prop := (-32768 ≤ k < 32768)%Z.

(** [String.fromCharCode(byte)] and [charCodeAt(i)] on binary strings. *)
Definition fromCharCode (b : Z) : ascii := ascii_of_N (Z.to_N b).
Definition charCodeAt (a : ascii) : Z := Z.of_N (N_of_ascii a).

(** [createPcmBlob] up to [btoa]: the binary string. *)
Definition pcm_binary (data : list Sample) : string :=
  let int16 := (λ x, ToInt16 (scaled x)) <$> data in
  let uint8 := int16 ≫= (λ k, [low_byte k; high_byte k]) in
  String.string_of_list_ascii (fromCharCode <$> uint8).

(** The signed value of two bytes. *)
Definition int16_of_bytes (lo hi : Z) : Z :=
  let u := (lo + 256 * hi)%Z in
  if (u <? 32768)%Z then u else (u - 65536)%Z.

(** [new Int16Array(bytes.buffer)]: a [RangeError] when the number of
    bytes is odd. *)
Fixpoint Int16Array (bytes : list Z) : option (list Z) :=
  match bytes with
  | [] => Some []
  | lo :: hi :: rest => (int16_of_bytes lo hi ::.) <$> Int16Array rest
  | [_] => None
  end.

Record PcmBlob := {
  blob_data : string;
  blob_mimeType : string
}.

Record AudioBuffer := {
  channelData : list Sample;
  sampleRate : Z
}.

(** The duration of a buffer, in samples at its own rate (seconds are
    this over [sampleRate]). *)
Definition frameCount (b : AudioBuffer) : nat := length (channelData b).

Section Wire.

(** The base64 built-ins. *)
Context (btoa : string → string) (atob : string → option string).

Definition createPcmBlob (data : list Sample) : PcmBlob :=
  {| blob_data := btoa (pcm_binary data);
     blob_mimeType := "audio/pcm;rate=16000" |}.

(** [decodeAudioData]: [None] when [atob] or [Int16Array] throws, and
    when there is no frame, for which [createBuffer] throws. *)
Definition decodeAudioData (base64 : string) : option AudioBuffer :=
  binaryString ← atob base64;
  dataInt16 ← Int16Array (charCodeAt <$> String.list_ascii_of_string binaryString);
  match dataInt16 with
  | [] => None
  | _ :: _ =>
      Some {| channelData :=
                (λ k, {| mantissa := k; exponent := 15 |}) <$> dataInt16;
              sampleRate := 24000 |}
  end.

End Wire.

(** A sample as it is after the wire: rounded towards zero to a
    multiple of 1/32768 (and wrapped when out of range). *)
Definition quantized (x : Sample) : Sample :=
  {| mantissa := ToInt16 (scaled x); exponent := 15 |}.

End Pcm.

(** ** Editing a category on the dashboard, by value *)

Module Cards.

Import Decisions.

Global Instance Category_eq_dec : EqDecision Category.
Proof. solve_decision. Defined.

(** The items of a category of a profile value. *)
Definition get_items (c : Category) (p : UserMemoryProfile) : list string :=
  match c with
  | Values => values p
  | PersonalityTraits => personalityTraits p
  | MentalModels => mentalModels p
  | WorkHabits => workHabits p
  | DecisionPrinciples => decisionPrinciples p
  | Interests => interests p
  end.

Definition make_profile (items : Category → list string) (stamp : string)
    : UserMemoryProfile :=
  {| values := items Values;
     personalityTraits := items PersonalityTraits;
     mentalModels := items MentalModels;
     workHabits := items WorkHabits;
     decisionPrinciples := items DecisionPrinciples;
     interests := items Interests;
     lastUpdated := stamp |}.

(** The profile value with one category replaced and a new time
    stamp. *)
Definition edited (now : string) (c : Category) (items : list string)
    (p : UserMemoryProfile) : UserMemoryProfile :=
  make_profile (λ c', if decide (c' = c) then items else get_items c' p) now.

(** The profile value the state shows. *)
Definition shown_profile (st : AppState) : option UserMemoryProfile :=
  read_profile (heap st) (profile st).

End Cards.
(** * Facts about JavaScript strings *)

Section StringFacts.

Import JsString.

Lemma starts_with_app (p t : string) : starts_with p (p +:+ t) = true.
Proof.
  induction p as [|a p IH]; simpl; [done|].
  by rewrite Ascii.eqb_refl, IH.
Qed.

Lemma includes_app (p t : string) : includes p (p +:+ t) = true.
Proof.
  destruct p as [|a p]; [by destruct t|].
  simpl. by rewrite Ascii.eqb_refl, starts_with_app.
Qed.

Lemma string_app_assoc (s t u : string) : (s +:+ t) +:+ u = s +:+ (t +:+ u).
Proof.
  induction s as [|a s IH]; [done|].
  change ((String a s +:+ t) +:+ u) with (String a ((s +:+ t) +:+ u)).
  change (String a s +:+ (t +:+ u)) with (String a (s +:+ (t +:+ u))).
  by f_equal.
Qed.

Lemma includes_mid (sub p t : string) : includes sub (p +:+ sub +:+ t) = true.
Proof.
  induction p as [|a p IH]; [apply (includes_app sub t)|].
  change (String a p +:+ sub +:+ t) with (String a (p +:+ sub +:+ t)).
  cbn [includes]. rewrite IH. apply orb_true_r.
Qed.

End StringFacts.

(** * Facts about [slice] *)

Section SliceFacts.

Context {A : Type}.
Implicit Types (l : list A) (n : nat).

Lemma slice_last_length n l : length (slice_last n l) ≤ n.
Proof. unfold slice_last. rewrite length_drop. lia. Qed.

Lemma slice_last_short n l : length l ≤ n → slice_last n l = l.
Proof.
  intros Hle. unfold slice_last.
  by replace (length l - n) with 0 by lia.
Qed.

Lemma slice_last_snoc n l x : slice_last (S n) (l ++ [x]) = slice_last n l ++ [x].
Proof.
  unfold slice_last. rewrite length_app. simpl.
  replace (length l + 1 - S n) with (length l - n) by lia.
  rewrite drop_app_le; [done | lia].
Qed.

Lemma slice_last_lookup n l i x :
  l !! i = Some x → length l - n ≤ i → x ∈ slice_last n l.
Proof.
  intros Hi Hle. unfold slice_last. apply list_elem_of_lookup.
  exists (i - (length l - n)). rewrite lookup_drop.
  by replace (length l - n + (i - (length l - n))) with i by lia.
Qed.

Lemma suffix_slice_last n (s t : list A) :
  s `suffix_of` t → length s ≤ n → s `suffix_of` slice_last n t.
Proof.
  intros [k ->] Hle. unfold slice_last.
  rewrite length_app.
  destruct (decide (length k + length s ≤ n)) as [Hs|Hs].
  - replace (length k + length s - n) with 0 by lia. by exists k.
  - rewrite drop_app_le by lia. by eexists.
Qed.

Lemma filter_drop_suffix (P : A → Prop) `{!∀ x, Decision (P x)} k l :
  filter P (drop k l) `suffix_of` filter P l.
Proof.
  exists (filter P (take k l)).
  by rewrite <- filter_app, take_drop.
Qed.

End SliceFacts.

(** * The Conversational Turn Engine *)

Section ChatTurnFacts.

Import ChatTurn.

Context (JSON_stringify : UserMemoryProfile → string).

#[local] Abbreviation handleSend := (handleSend JSON_stringify).
#[local] Abbreviation dispatch := (dispatch JSON_stringify).
#[local] Abbreviation ctx_of := (profile_context JSON_stringify).

Lemma inject_entries ctx (m : ChatMessage) (w : list ChatMessage) :
  inject ctx (to_entry <$> (m :: w)) = injected ctx m :: (to_entry <$> w).
Proof. done. Qed.

Lemma inject_length ctx (h : list HistoryEntry) : length (inject ctx h) = length h.
Proof. destruct h as [|e rest]; [done|]. simpl. by destruct (parts e). Qed.

Lemma window_length (log : list ChatMessage) : length (window log) ≤ 20.
Proof.
  unfold window.
  etrans; [apply length_filter | apply slice_last_length].
Qed.

Lemma window_suffix_spec (log : list ChatMessage) :
  window log `suffix_of` spec_window log.
Proof.
  apply suffix_slice_last; [|apply window_length].
  apply filter_drop_suffix.
Qed.

Lemma window_snoc (log : list ChatMessage) (m : ChatMessage) :
  role m ≠ SYSTEM →
  window (log ++ [m]) = filter (λ m, role m ≠ SYSTEM) (slice_last 19 log) ++ [m].
Proof.
  intros Hm. unfold window. rewrite slice_last_snoc, filter_app.
  f_equal. by rewrite filter_cons_True.
Qed.

(** Every dispatch of [handleSend] is built from the window of the log
    it reports. *)
Lemma handleSend_history rc ra now st d :
  handleSend rc ra now st = Some d →
  history d = inject (ctx_of (profile st)) (to_entry <$> window (newMessages d)).
Proof.
  unfold ChatTurn.handleSend. intros H.
  destruct (_ || _); [done|]. by simplify_eq.
Qed.

Lemma handleSend_new now st d :
  handleSend None None now st = Some d →
  ∃ userMsg,
    newMessages d = messages st ++ [userMsg] ∧ role userMsg = USER ∧
    content userMsg = input st ∧ message d = input st ∧ saved d = true.
Proof.
  unfold ChatTurn.handleSend. intros H.
  destruct (_ || _); [done|]. simplify_eq. eexists. simpl. done.
Qed.

Lemma handleSend_retry c ra now st d :
  handleSend (Some c) ra now st = Some d →
  newMessages d = messages st ∧ message d = c ∧ saved d = false.
Proof.
  unfold ChatTurn.handleSend. intros H.
  destruct (_ || _); [done|]. by simplify_eq.
Qed.

(** A regeneration resends a user message that is the last or the last
    but one of the log. *)
Lemma handleRegenerate_retry now st d :
  handleRegenerate JSON_stringify now st = Some d →
  ∃ u i, messages st !! i = Some u ∧ length (messages st) - 2 ≤ i ∧
         role u = USER ∧ handleSend (Some (content u)) (fileData u) now st = Some d.
Proof.
  unfold handleRegenerate. intros H.
  destruct (_ || _); [done|].
  destruct (last (messages st)) as [lastMsg|] eqn:Hlast; [|done].
  rewrite last_lookup in Hlast.
  destruct (role lastMsg) eqn:Hrole; [| |done].
  - rewrite bool_decide_eq_true_2 in H by done.
    exists lastMsg, (pred (length (messages st))). split_and!; [done|lia|done|done].
  - destruct (last (slice_init (messages st))) as [u|] eqn:Hu; [|done].
    case_bool_decide as Hr; [|done].
    rewrite last_lookup in Hu. unfold slice_init in Hu.
    rewrite length_take in Hu.
    apply lookup_take_Some in Hu as [Hu Hlt].
    eexists u, _. split_and!; [exact Hu|lia|done|done].
Qed.

(** The window of a dispatched turn is never empty. *)
Lemma dispatch_window a now st d :
  dispatch a now st = Some d →
  ∃ first rest, window (newMessages d) = first :: rest.
Proof.
  intros H.
  assert (∃ u, u ∈ window (newMessages d)) as [u Hu].
  { destruct a; simpl in H.
    - apply handleSend_new in H as (userMsg & -> & Hr & _).
      exists userMsg. rewrite window_snoc by congruence. set_solver.
    - apply handleRegenerate_retry in H as (u & i & Hi & Hle & Hr & H).
      apply handleSend_retry in H as (-> & _).
      exists u. unfold window. apply list_elem_of_filter. split; [congruence|].
      apply (slice_last_lookup _ _ i); [done|lia]. }
  destruct (window (newMessages d)) as [|first rest]; [|by eauto].
  by apply not_elem_of_nil in Hu.
Qed.

(** The new-message argument is the content of a message of the log. *)
Lemma dispatch_message_in_log a now st d :
  dispatch a now st = Some d →
  ∃ m, m ∈ newMessages d ∧ message d = content m.
Proof.
  intros H. destruct a; simpl in H.
  - apply handleSend_new in H as (userMsg & -> & _ & Hc & -> & _).
    exists userMsg. split; [set_solver|done].
  - apply handleRegenerate_retry in H as (u & i & Hi & _ & _ & H).
    apply handleSend_retry in H as (-> & -> & _).
    exists u. split; [|done]. apply list_elem_of_lookup. eauto.
Qed.

Lemma filter_Forall_id {A} (P : A → Prop) `{!∀ x, Decision (P x)} (l : list A) :
  Forall P l → filter P l = l.
Proof.
  induction 1 as [|x l Hx _ IH]; [done|].
  by rewrite filter_cons_True, IH.
Qed.

Lemma filter_Forall_not {A} (P : A → Prop) `{!∀ x, Decision (P x)} (l : list A) :
  Forall (λ x, ¬ P x) l → filter P l = [].
Proof.
  induction 1 as [|x l Hx _ IH]; [done|].
  by rewrite filter_cons_False.
Qed.

Lemma entries_texts (w : list ChatMessage) :
  concat ((λ e, text <$> parts e) <$> (to_entry <$> w)) = content <$> w.
Proof.
  induction w as [|m w IH]; [done|].
  rewrite !fmap_cons. cbn [concat]. by rewrite IH.
Qed.

(** C1 (as amended): the history of a turn is built from the
    non-system messages among the last 20 messages of the log, in the
    order of the log: the last 20 are taken first and the system
    messages are dropped from them.  It has at most 20 entries, it is a
    suffix of the most recent 20 non-system messages, and it is exactly
    those when the log has more than 20 messages and none of its last 20
    is a system message. *)
Theorem history_is_filtered_tail rc ra now st d :
  handleSend rc ra now st = Some d →
  history d =
    inject (ctx_of (profile st))
      (to_entry <$> filter (λ m, role m ≠ SYSTEM) (slice_last 20 (newMessages d)))
  ∧ length (history d) ≤ 20
  ∧ filter (λ m, role m ≠ SYSTEM) (slice_last 20 (newMessages d))
      `suffix_of` spec_window (newMessages d)
  ∧ (20 < length (newMessages d) →
     Forall (λ m, role m ≠ SYSTEM) (slice_last 20 (newMessages d)) →
     history d =
       inject (ctx_of (profile st)) (to_entry <$> spec_window (newMessages d))
     ∧ length (history d) = 20).
Proof.
  intros H. apply handleSend_history in H.
  fold (window (newMessages d)). split_and!.
  - done.
  - rewrite H, inject_length, length_fmap. apply window_length.
  - apply window_suffix_spec.
  - intros Hlen Hall.
    assert (window (newMessages d) = slice_last 20 (newMessages d)) as Hw
      by (by apply filter_Forall_id).
    assert (length (window (newMessages d)) = 20) as Hl.
    { rewrite Hw. unfold slice_last. rewrite length_drop. lia. }
    assert (window (newMessages d) = spec_window (newMessages d)) as Heq.
    { apply suffix_length_eq; [apply window_suffix_spec|].
      rewrite Hl. apply slice_last_length. }
    split; [by rewrite <- Heq|].
    by rewrite H, inject_length, length_fmap.
Qed.

(** C6 (as amended): in every turn the interface dispatches, the
    context line made of the serialized profile,
    [[System Context: Current User Profile (Values/Traits): ] followed
    by [JSON.stringify(profile)], []] and two line feeds, is prefixed
    once, to the first message of the trimmed window; every later entry
    of the history carries its stored content unchanged, and the
    new-message argument is a stored content too.  So the text of the
    first entry always contains the serialized profile, and it is the
    only text of the request that does exactly when no later message of
    the window, nor the new message, contains the serialized profile in
    its own content. *)
Theorem profile_injected_once a now st d :
  dispatch a now st = Some d →
  ∃ first rest,
    window (newMessages d) = first :: rest
    ∧ history d =
        {| h_role := role first;
           parts :=
             [ {| text :=
                    "[System Context: Current User Profile (Values/Traits): "
                      +:+ JSON_stringify (profile st) +:+ "]"
                      +:+ JsString.nl +:+ JsString.nl +:+ content first |} ] |}
          :: (to_entry <$> rest)
    ∧ request_texts d =
        ("[System Context: Current User Profile (Values/Traits): "
           +:+ JSON_stringify (profile st) +:+ "]"
           +:+ JsString.nl +:+ JsString.nl +:+ content first)
          :: (content <$> rest) ++ [message d]
    ∧ (∃ m, m ∈ newMessages d ∧ message d = content m)
    ∧ (length (filter (λ t, JsString.includes (JSON_stringify (profile st)) t = true)
                 (request_texts d)) = 1
       ↔ (∀ m, m ∈ rest →
            JsString.includes (JSON_stringify (profile st)) (content m) = false)
         ∧ JsString.includes (JSON_stringify (profile st)) (message d) = false).
Proof.
  intros H.
  destruct (dispatch_window _ _ _ _ H) as (first & rest & Hw).
  pose proof (dispatch_message_in_log _ _ _ _ H) as Hmsg.
  assert (history d = injected (ctx_of (profile st)) first :: (to_entry <$> rest))
    as Hh.
  { destruct a; simpl in H.
    - apply handleSend_history in H. by rewrite H, Hw.
    - apply handleRegenerate_retry in H as (? & ? & _ & _ & _ & H).
      apply handleSend_history in H. by rewrite H, Hw. }
  assert (ctx_of (profile st) +:+ content first =
          "[System Context: Current User Profile (Values/Traits): "
            +:+ JSON_stringify (profile st) +:+ "]"
            +:+ JsString.nl +:+ JsString.nl +:+ content first) as Htext.
  { unfold profile_context. by rewrite !string_app_assoc. }
  assert (request_texts d =
          ("[System Context: Current User Profile (Values/Traits): "
             +:+ JSON_stringify (profile st) +:+ "]"
             +:+ JsString.nl +:+ JsString.nl +:+ content first)
            :: (content <$> rest) ++ [message d]) as Htexts.
  { unfold request_texts. rewrite Hh, fmap_cons. cbn [concat].
    rewrite entries_texts. cbn [injected parts fmap list_fmap text app].
    by rewrite Htext. }
  exists first, rest. split_and!; [done| |done|done|].
  { rewrite Hh. unfold injected. by rewrite Htext. }
  rewrite Htexts. rewrite filter_cons_True by apply includes_mid.
  cbn [length]. split.
  - intros Hlen.
    assert (filter (λ t, JsString.includes (JSON_stringify (profile st)) t = true)
              ((content <$> rest) ++ [message d]) = []) as Hnil.
    { apply length_zero_iff_nil. lia. }
    assert (∀ t, t ∈ (content <$> rest) ++ [message d] →
              JsString.includes (JSON_stringify (profile st)) t = false) as Hall.
    { intros t Ht.
      destruct (JsString.includes (JSON_stringify (profile st)) t) eqn:Hin; [|done].
      by destruct (filter_nil_not_elem_of _ _ t Hnil Hin). }
    split.
    + intros m Hm. apply Hall, elem_of_app. left.
      apply list_elem_of_fmap. by exists m.
    + apply Hall, elem_of_app. right. apply list_elem_of_singleton. done.
  - intros [Hrest Hmessage]. rewrite filter_Forall_not; [done|].
    apply Forall_app. split.
    + apply Forall_fmap, Forall_forall. intros m Hm. simpl.
      by rewrite (Hrest m Hm).
    + apply Forall_singleton. by rewrite Hmessage.
Qed.

(** C10: a send that is not a retry appends the new user message to the
    log it stores, so the message closes the history of the request (its
    text behind the profile context when it is the only entry), and the
    same text is the new-message argument of the same call. *)
Theorem new_message_sent_twice now st d :
  handleSend None None now st = Some d →
  ∃ userMsg h0,
    newMessages d = messages st ++ [userMsg]
    ∧ role userMsg = USER ∧ content userMsg = input st
    ∧ saved d = true
    ∧ history d =
        h0 ++ [ {| h_role := USER;
                   parts := [ {| text :=
                     (if h0 is [] then ctx_of (profile st) else "") +:+ input st |} ] |} ]
    ∧ message d = input st.
Proof.
  intros H. pose proof (handleSend_history _ _ _ _ _ H) as Hh.
  apply handleSend_new in H as (userMsg & Hlog & Hr & Hc & Hmsg & Hsaved).
  rewrite Hlog, window_snoc in Hh by congruence.
  destruct (filter _ (slice_last 19 (messages st))) as [|m w] eqn:Hw.
  - exists userMsg, []. split_and!; [done..| |done].
    rewrite Hh. simpl. unfold injected. by rewrite Hr, Hc.
  - exists userMsg, (injected (ctx_of (profile st)) m :: (to_entry <$> w)).
    split_and!; [done..| |done].
    rewrite Hh. simpl. rewrite fmap_app. simpl.
    unfold to_entry at 2. by rewrite Hr, Hc.
Qed.

End ChatTurnFacts.

(** The example session sends ["hello"]: the history stays within
    20 entries. *)
Lemma history_is_filtered_tail_witness :
  ∃ d,
    ChatTurn.handleSend ChatTurn.example_stringify None None "1"
      ChatTurn.example_state = Some d
    ∧ length (ChatTurn.history d) ≤ 20.
Proof.
  eexists. split; [reflexivity|].
  eapply (history_is_filtered_tail ChatTurn.example_stringify None None "1"
            ChatTurn.example_state).
  reflexivity.
Defined.

(** The context window as the specification words it does not hold:
    the example session has 21 messages, its most recent non-system
    messages would fill the 20 places, and the history has 19 entries,
    because the system message among the last 20 of the log is dropped
    after the cut. *)
Lemma spec_window_counterexample :
  ¬ ChatTurn.spec_window_property ChatTurn.example_stringify.
Proof.
  intros Hspec.
  specialize (Hspec None None "1" ChatTurn.example_state _ eq_refl).
  apply (f_equal length) in Hspec; [|vm_compute; lia].
  vm_compute in Hspec. discriminate Hspec.
Qed.

(** The example session sends ["hello"]: no stored message and not
    the input contains the serialized profile, and exactly one text of
    the request does. *)
Lemma profile_injected_once_witness :
  ∃ d,
    ChatTurn.dispatch ChatTurn.example_stringify ChatTurn.SendInput "1"
      ChatTurn.example_state = Some d
    ∧ length
        (filter
           (λ t, JsString.includes
                   (ChatTurn.example_stringify
                      (ChatTurn.profile ChatTurn.example_state)) t = true)
           (ChatTurn.request_texts d)) = 1.
Proof.
  eexists. split; [reflexivity|].
  destruct (profile_injected_once ChatTurn.example_stringify ChatTurn.SendInput
              "1" ChatTurn.example_state _ eq_refl)
    as (first & rest & Hw & _ & _ & _ & Hiff).
  apply Hiff. vm_compute in Hw. injection Hw as <- <-.
  split; [|reflexivity].
  apply Forall_forall. repeat constructor.
Defined.

(** The profile injection as the specification words it does not
    hold: when the input is the serialized profile itself, three texts
    of the request contain it, the first entry of the history, the last
    one (the new message) and the new-message argument. *)
Lemma spec_injection_counterexample :
  ¬ ChatTurn.spec_injection_property ChatTurn.example_stringify.
Proof.
  intros Hspec.
  specialize (Hspec ChatTurn.SendInput "1" ChatTurn.example_echo_state _ eq_refl).
  vm_compute in Hspec. discriminate Hspec.
Qed.

(** The example session sends ["hello"], which is also the
    new-message argument. *)
Lemma new_message_sent_twice_witness :
  ∃ d,
    ChatTurn.handleSend ChatTurn.example_stringify None None "1"
      ChatTurn.example_state = Some d
    ∧ ChatTurn.message d = "hello".
Proof.
  eexists. split; [reflexivity|].
  destruct (new_message_sent_twice ChatTurn.example_stringify "1"
              ChatTurn.example_state _ eq_refl)
    as (userMsg & h0 & _ & _ & _ & _ & _ & Hm).
  exact Hm.
Defined.

(** * The AI Gateway *)

Section GatewayFacts.

Import Gateway.

Context {T : Type}.
Implicit Types (operation : nat → result T) (fb : option (result T)).

#[local] Ltac count_events :=
  unfold attempts, fallbacks; simpl;
  rewrite ?filter_cons, ?filter_nil; repeat case_decide; simplify_eq; simpl; lia.

Lemma backoff_S delay retries :
  backoff delay (S retries) = delay :: backoff (delay * 2) retries.
Proof.
  unfold backoff. cbn [seq fmap list_fmap]. f_equal.
  - cbn. lia.
  - rewrite <- fmap_S_seq, <- list_fmap_compose.
    apply list_fmap_ext. intros _ i _. cbn [compose].
    rewrite Nat2Z.inj_succ, Z.pow_succ_r by lia. lia.
Qed.

(** Whatever the operation does, the primary tier is tried at most
    [retries + 1] times and the fallback at most once. *)
Lemma retry_attempts_bounded operation done retries delay fb :
  attempts (retryOperation operation done retries delay fb).1 ≤ retries + 1
  ∧ fallbacks (retryOperation operation done retries delay fb).1 ≤ 1.
Proof.
  revert done delay.
  induction retries as [|retries IH]; intros done delay; simpl.
  - destruct (operation done) as [v|e]; [count_events|].
    destruct fb as [r|]; [|count_events].
    rewrite orb_true_r. count_events.
  - destruct (operation done) as [v|e]; [count_events|].
    destruct (isUnavailable e).
    + specialize (IH (S done) (delay * 2)%Z).
      destruct (retryOperation operation (S done) retries (delay * 2) fb)
        as [tr r].
      simpl in *. unfold attempts, fallbacks in *.
      rewrite !filter_cons. repeat case_decide; simplify_eq; simpl; lia.
    + destruct fb as [r|]; count_events.
Qed.

(** C4: when every attempt fails with a transient error, the primary
    tier is tried [retries + 1] times, the waits between the tries are
    the base delay doubling, and after the last try the fallback is run
    once if there is one and the call fails with the last error if there
    is none. *)
Theorem retry_bound operation (error : nat → JsError) done retries delay fb :
  (∀ k, operation k = Err (error k)) →
  (∀ k, isUnavailable (error k) = true) →
  (retryOperation operation done retries delay fb).1 =
      flat_map (λ ms, [Attempt; Sleep ms]) (backoff delay retries)
        ++ Attempt :: (if fb is Some _ then [Fallback] else [])
  ∧ attempts (retryOperation operation done retries delay fb).1 = retries + 1
  ∧ sleeps (retryOperation operation done retries delay fb).1 = backoff delay retries
  ∧ fallbacks (retryOperation operation done retries delay fb).1 =
      (if fb is Some _ then 1 else 0)
  ∧ (retryOperation operation done retries delay fb).2 =
      match fb with
      | Some outcome => outcome
      | None => Err (error (done + retries))
      end.
Proof.
  intros Hfail Htransient. revert done delay.
  induction retries as [|retries IH]; intros done delay.
  - simpl. rewrite Hfail, Nat.add_0_r.
    destruct fb as [r|]; [|done].
    by rewrite Htransient.
  - cbn [retryOperation]. rewrite Hfail, Htransient.
    destruct (IH (S done) (delay * 2)%Z) as (Htr & Ha & Hs & Hf & Hr).
    destruct (retryOperation operation (S done) retries (delay * 2) fb)
      as [tr r].
    cbn [fst snd] in *. rewrite backoff_S. split_and!.
    + cbn [flat_map]. by rewrite Htr.
    + unfold attempts in *. rewrite filter_cons_True by done.
      rewrite filter_cons_False by done. cbn [length]. lia.
    + unfold sleeps in *. cbn [omap list_omap]. by rewrite Hs.
    + unfold fallbacks in *. by rewrite !filter_cons_False.
    + rewrite Hr. destruct fb; [done|]. do 2 f_equal. lia.
Qed.

End GatewayFacts.

(** A rate-limited operation, two retries from one second, a fallback
    that answers. *)
Lemma retry_bound_witness :
  (Gateway.retryOperation
     (λ _, Gateway.Err {| Gateway.message := None; Gateway.status := Some 429%Z |})
     0 2 1000 (Some (Gateway.Ok "answer"))).1
  = [Gateway.Attempt; Gateway.Sleep 1000; Gateway.Attempt; Gateway.Sleep 2000;
     Gateway.Attempt; Gateway.Fallback].
Proof.
  apply (retry_bound
           (λ _, Gateway.Err {| Gateway.message := None; Gateway.status := Some 429%Z |})
           (λ _, {| Gateway.message := None; Gateway.status := Some 429%Z |})
           0 2 1000 (Some (Gateway.Ok "answer"))).
  - intros k. reflexivity.
  - intros k. reflexivity.
Defined.

(** * Profile shape: sanitizing, loading and merging *)

Section JsonFacts.

Import Gateway Json.

Lemma assoc_set_field_ne k k' v fs :
  k ≠ k' → assoc k (set_field k' v fs) = assoc k fs.
Proof.
  intros Hne. induction fs as [|[k0 v0] fs IH]; simpl.
  - destruct (String.eqb_spec k' k); congruence.
  - destruct (String.eqb_spec k0 k') as [->|Hk0]; simpl.
    + destruct (String.eqb_spec k' k); congruence.
    + by rewrite IH.
Qed.

Lemma array_or_empty_isArray j k : isArray (Some (array_or_empty j k)) = true.
Proof. unfold array_or_empty. by destruct (get j k) as [[]|]. Qed.

(** The sanitize step yields the six categories as arrays. *)
Lemma sanitize_shape now j p : sanitize now j = Some p → shape_ok p = true.
Proof.
  intros H. destruct j; cbn [sanitize] in H; simplify_eq;
    unfold shape_ok; cbn -[array_or_empty isArray];
    by rewrite !array_or_empty_isArray.
Qed.

Lemma sanitized_fixpoint now now' j p :
  now ≠ "" ∨ now' = now → sanitize now j = Some p → sanitize now' p = Some p.
Proof.
  intros Hnow H.
  assert (p = JObj
    [ ("values", array_or_empty j "values");
      ("personalityTraits", array_or_empty j "personalityTraits");
      ("mentalModels", array_or_empty j "mentalModels");
      ("workHabits", array_or_empty j "workHabits");
      ("decisionPrinciples", array_or_empty j "decisionPrinciples");
      ("interests", array_or_empty j "interests");
      ("lastUpdated",
        if truthy (get j "lastUpdated")
        then default JNull (get j "lastUpdated")
        else JStr now) ]) as -> by (destruct j; by simplify_eq/=).
  clear H. cbn [sanitize]. do 2 f_equal.
  repeat (f_equal; first
    (f_equal; unfold array_or_empty at 1; cbn [get assoc String.eqb Ascii.eqb Bool.eqb];
     unfold array_or_empty; by destruct (get j _) as [[]|])).
  f_equal. f_equal. cbn [get assoc String.eqb Ascii.eqb Bool.eqb].
  destruct (truthy (get j "lastUpdated")) eqn:Ht.
  - destruct (get j "lastUpdated") as [v|]; [|done].
    cbn [from_option Datatypes.id]. by rewrite Ht.
  - cbn [truthy from_option Datatypes.id].
    destruct (String.eqb_spec now "") as [->|Hne]; cbn [negb]; [|done].
    destruct Hnow as [Hnow| ->]; done.
Qed.

(** The sanitize step is idempotent. *)
Lemma sanitize_idempotent now j :
  sanitize now j ≫= sanitize now = sanitize now j.
Proof.
  destruct (sanitize now j) as [p|] eqn:H; [|done].
  simpl. eapply sanitized_fixpoint; [by right|done].
Qed.

Lemma handleUpdateProfile_get now fs k :
  k ≠ "lastUpdated" → get (handleUpdateProfile now (JObj fs)) k = assoc k fs.
Proof. intros Hk. by apply assoc_set_field_ne. Qed.

(** Stamping the update time keeps the categories as they are. *)
Lemma handleUpdateProfile_shape now fs :
  shape_ok (handleUpdateProfile now (JObj fs)) = shape_ok (JObj fs).
Proof.
  unfold shape_ok, categories. cbn [forallb].
  by rewrite !handleUpdateProfile_get.
Qed.

(** A profile that arrives through a file import has the shape. *)
Lemma handleFileChange_shape file confirmLoad now profile :
  shape_ok profile = true →
  shape_ok (handleFileChange file confirmLoad now profile) = true.
Proof.
  intros Hp. unfold handleFileChange.
  destruct file as [| |j]; [done..|].
  destruct (sanitize now j) as [p|] eqn:Hs; [|done].
  destruct confirmLoad; [|done].
  pose proof (sanitize_shape _ _ _ Hs) as Hshape.
  destruct j; cbn [sanitize] in Hs; simplify_eq;
    by rewrite handleUpdateProfile_shape.
Qed.

(** A completion that parses to an object reaches the profile state
    with exactly the fields it has: what it lacks stays missing. *)
Lemma merge_keeps_fields flash pro now profile fs k :
  flash 0 = Ok (Parsed (JObj fs)) → k ≠ "lastUpdated" →
  get (merge_profile flash pro now profile) k = assoc k fs.
Proof.
  intros Hflash Hk. unfold merge_profile, analyzeProfile.
  cbn [retryOperation]. rewrite Hflash. cbn [runAnalysis snd].
  by apply handleUpdateProfile_get.
Qed.

End JsonFacts.

(** C2, at the input where the code leaves it: the profile blob that
    the merge of [Json.example_completion] stored is installed by App's
    load effect as it was parsed, with no sanitize step, so the loaded
    profile has no array in five of its six categories.  The same blob
    imported as a file does get the shape ([handleFileChange_shape],
    [sanitize_idempotent]). *)
Theorem load_profile_unsanitized :
  Json.load_profile (Json.Parsed Json.example_merged) = Json.example_merged
  ∧ Json.get (Json.load_profile (Json.Parsed Json.example_merged)) "interests"
      = None
  ∧ Json.shape_ok (Json.load_profile (Json.Parsed Json.example_merged)) = false
  ∧ Json.shape_ok
      (Json.handleFileChange (Json.Parsed Json.example_merged) true "2026/1/2"
         Json.INITIAL_PROFILE) = true.
Proof. by vm_compute. Qed.

(** C3, at the input where the code leaves it: the synthesizer's
    completion [{"values": ["directness"]}] lacks five of the six
    fields.  The merge does not fail, and the profile it installs lacks
    the same five fields: none is defaulted to an empty list. *)
Theorem merge_missing_fields_stay_missing :
  (Json.analyzeProfile (λ _, Gateway.Ok (Json.Parsed Json.example_completion))
     (Gateway.Ok Json.Absent)).2 = Gateway.Ok Json.example_completion
  ∧ Json.example_merged =
      Json.JObj [("values", Json.JArr [Json.JStr "directness"]);
                 ("lastUpdated", Json.JStr "2026/1/1")]
  ∧ Json.get Json.example_merged "interests" = None
  ∧ Json.shape_ok Json.example_merged = false.
Proof. by vm_compute. Qed.

(** * The Session Store of prompt-engineering sessions *)

Section PromptStoreFacts.

Import PromptStore.

Lemma with_isDeleted_same b s : same_but_flag s (with_isDeleted b s).
Proof. by repeat split. Qed.

Lemma same_but_flag_refl s : same_but_flag s s.
Proof. by repeat split. Qed.

Lemma delete_lookup i prev n s :
  prev !! n = Some s →
  handleDeletePromptSession i prev !! n =
    Some (if String.eqb (id s) i then with_isDeleted (Some true) s else s).
Proof.
  intros H. unfold handleDeletePromptSession.
  by rewrite list_lookup_fmap, H.
Qed.

Lemma restore_delete_lookup i prev n s :
  prev !! n = Some s →
  handleRestorePromptSession i (handleDeletePromptSession i prev) !! n =
    Some (if String.eqb (id s) i then with_isDeleted (Some false) s else s).
Proof.
  intros H. unfold handleRestorePromptSession.
  rewrite list_lookup_fmap, (delete_lookup _ _ _ _ H). simpl.
  destruct (String.eqb (id s) i) eqn:Hi; simpl; by rewrite Hi.
Qed.

Lemma purge_after_delete i prev s :
  s ∈ handleEmptyRecycleBin true (handleDeletePromptSession i prev) → id s ≠ i.
Proof.
  unfold handleEmptyRecycleBin, handleDeletePromptSession.
  intros [Hnd Hs]%list_elem_of_filter.
  apply list_elem_of_fmap in Hs as (s0 & -> & _).
  destruct (String.eqb_spec (id s0) i) as [Heq|Hne]; [done|].
  exact Hne.
Qed.

(** C5: restoring a soft-deleted session gives the session back with
    its title and message log (and all else but the flag) unchanged, a
    soft delete itself only sets the flag, neither changes any other
    session or the number of sessions, and emptying the recycle bin
    after a soft delete leaves no session with that id. *)
Theorem soft_delete_round_trip (i : string) (prev : list PromptSession) :
  length (handleDeletePromptSession i prev) = length prev
  ∧ length (handleRestorePromptSession i (handleDeletePromptSession i prev))
      = length prev
  ∧ (∀ n s, prev !! n = Some s →
       ∃ deleted restored,
         handleDeletePromptSession i prev !! n = Some deleted
         ∧ handleRestorePromptSession i (handleDeletePromptSession i prev) !! n
             = Some restored
         ∧ same_but_flag s deleted ∧ same_but_flag s restored
         ∧ (id s = i → isDeleted deleted = Some true ∧ isDeleted restored = Some false)
         ∧ (id s ≠ i → deleted = s ∧ restored = s))
  ∧ (∀ s, s ∈ handleEmptyRecycleBin true (handleDeletePromptSession i prev) →
       id s ≠ i)
  ∧ handleEmptyRecycleBin false prev = prev.
Proof.
  split_and!.
  - unfold handleDeletePromptSession. by rewrite length_fmap.
  - unfold handleRestorePromptSession, handleDeletePromptSession.
    by rewrite !length_fmap.
  - intros n s Hn. eexists _, _. split_and!.
    + by apply delete_lookup.
    + by apply restore_delete_lookup.
    + destruct (String.eqb (id s) i);
        [apply with_isDeleted_same | apply same_but_flag_refl].
    + destruct (String.eqb (id s) i);
        [apply with_isDeleted_same | apply same_but_flag_refl].
    + intros Hi. apply String.eqb_eq in Hi. by rewrite Hi.
    + intros Hi. apply String.eqb_neq in Hi. by rewrite Hi.
  - apply purge_after_delete.
  - done.
Qed.

End PromptStoreFacts.

(** The first session of a store of two, soft-deleted and restored. *)
Lemma soft_delete_round_trip_witness :
  PromptStore.example_store !! 0 = Some (PromptStore.example_session "a" None)
  ∧ ∃ deleted restored,
      PromptStore.handleDeletePromptSession "a" PromptStore.example_store !! 0
        = Some deleted
      ∧ PromptStore.handleRestorePromptSession "a"
          (PromptStore.handleDeletePromptSession "a" PromptStore.example_store) !! 0
        = Some restored
      ∧ PromptStore.same_but_flag (PromptStore.example_session "a" None) restored.
Proof.
  split; [reflexivity|].
  destruct (soft_delete_round_trip "a" PromptStore.example_store)
    as (_ & _ & Hlookup & _).
  destruct (Hlookup 0 _ eq_refl) as (deleted & restored & Hd & Hr & _ & Hsame & _).
  by exists deleted, restored.
Defined.

(** * The Live Audio Turn Engine *)

Section LiveAudioFacts.

Import LiveAudio.

Context {T : Type} (zero : T) (add max : T → T → T).

#[local] Abbreviation onmessage := (onmessage zero add max).
#[local] Abbreviation step := (step zero add max).
#[local] Abbreviation run := (run zero add max).
#[local] Abbreviation end_time := (end_time add).

(** A message at which the handler throws: nothing but the scheduling
    clock can have changed, and that only by being raised to the
    clock. *)
Lemma onmessage_thrown clock msg (st : State T) :
  throws (audioContext st) msg = true →
  sources (onmessage clock msg st) = sources st
  ∧ stopped (onmessage clock msg st) = stopped st
  ∧ started (onmessage clock msg st) = started st
  ∧ audioContext (onmessage clock msg st) = audioContext st
  ∧ currentTranscript (onmessage clock msg st) = currentTranscript st
  ∧ userTextBuffer (onmessage clock msg st) = userTextBuffer st
  ∧ modelTextBuffer (onmessage clock msg st) = modelTextBuffer st
  ∧ (nextStartTime (onmessage clock msg st) = nextStartTime st
     ∨ nextStartTime (onmessage clock msg st) = max (nextStartTime st) clock).
Proof.
  unfold throws, LiveAudio.onmessage, handle_audio.
  destruct (audio msg); [done| |destruct (audioContext st); [|done]|done];
    intros _; cbn; split_and!; auto.
Qed.

(** A message the handler handles to its end: the audio block falls
    through, and the other two blocks run on what it left. *)
Lemma onmessage_handled clock msg (st : State T) :
  throws (audioContext st) msg = false →
  ∃ st',
    handle_audio add max clock msg st = Done st'
    ∧ onmessage clock msg st = handle_interrupted zero msg (handle_transcription msg st')
    ∧ audioContext st' = audioContext st
    ∧ currentTranscript st' = currentTranscript st
    ∧ userTextBuffer st' = userTextBuffer st
    ∧ modelTextBuffer st' = modelTextBuffer st
    ∧ stopped st' = stopped st
    ∧ sources st ⊆ sources st'
    ∧ (∀ f, started st' = started st ++ [f] → source f ∈ sources st').
Proof.
  assert (∀ f, started st ≠ started st ++ [f]) as Hne.
  { intros f Hf. apply (f_equal length) in Hf.
    rewrite length_app in Hf. simpl in Hf. lia. }
  unfold throws, LiveAudio.onmessage, handle_audio.
  destruct (audio msg) as [| | |d]; [|done| |].
  - intros _. exists st. split_and!; try done. intros f Hf. by destruct (Hne f).
  - destruct (audioContext st) eqn:Hctx; [done|]. intros _.
    exists st. split_and!; try done. intros f Hf. by destruct (Hne f).
  - intros _. destruct (audioContext st) eqn:Hctx.
    + eexists. split_and!; [reflexivity|reflexivity|..]; cbn; try done.
      * apply union_subseteq_r.
      * intros f [= <-]%app_inv_head. cbn.
        apply elem_of_union_l, elem_of_singleton. done.
    + exists st. split_and!; try done. intros f Hf. by destruct (Hne f).
Qed.

Lemma step_audioContext (st : State T) (i : Input) :
  audioContext (step st i) = audioContext st.
Proof.
  destruct i as [clock msg|src]; [|done]. simpl.
  destruct (throws (audioContext st) msg) eqn:Hthrows.
  - by apply onmessage_thrown.
  - destruct (onmessage_handled clock msg st Hthrows)
      as (st' & _ & -> & Hctx & _).
    unfold handle_interrupted. by destruct (interrupted msg).
Qed.

Lemma run_audioContext (inputs : list Input) (st : State T) :
  audioContext (run st inputs) = audioContext st.
Proof.
  revert st. induction inputs as [|i inputs IH]; intros st; [done|].
  unfold LiveAudio.run. cbn [foldl]. fold (run (step st i) inputs).
  by rewrite IH, step_audioContext.
Qed.

Lemma run_snoc (st : State T) (inputs : list Input) (i : Input) :
  run st (inputs ++ [i]) = step (run st inputs) i.
Proof. unfold LiveAudio.run. by rewrite foldl_app. Qed.

(** What one input that is no interruption does to the schedule of an
    open session: a frame that decodes is scheduled at the later of
    the running end and the clock; data that does not decode raises the
    running end to the clock; anything else changes nothing. *)
Lemma step_schedule (st : State T) (i : Input) :
  audioContext st = true → is_interruption i = false →
  match i with
  | Message clock msg =>
      match audio msg with
      | Frame d =>
          started (step st i) =
            started st ++
              [ {| source := length (started st); at_clock := clock;
                   start := max (nextStartTime st) clock; duration := d |} ]
          ∧ nextStartTime (step st i) = add (max (nextStartTime st) clock) d
      | Undecodable =>
          started (step st i) = started st
          ∧ nextStartTime (step st i) = max (nextStartTime st) clock
      | NoAudio | NoParts =>
          started (step st i) = started st
          ∧ nextStartTime (step st i) = nextStartTime st
      end
  | Ended _ =>
      started (step st i) = started st
      ∧ nextStartTime (step st i) = nextStartTime st
  end.
Proof.
  intros Hctx Hi. destruct i as [clock msg|src]; [|done].
  simpl in Hi. simpl. unfold LiveAudio.onmessage, handle_audio, handle_interrupted.
  rewrite Hctx. destruct (audio msg); cbn; rewrite ?Hi; done.
Qed.

Lemma frames_snoc (inputs : list Input) (i : Input) :
  frames (inputs ++ [i]) =
    frames inputs ++
      match i return list (T * T) with
      | Message clock msg => if audio msg is Frame d then [(clock, d)] else []
      | Ended _ => []
      end.
Proof.
  unfold frames. rewrite omap_app. f_equal.
  destruct i as [clock msg|src]; [|done]. cbn. by destruct (audio msg).
Qed.

Section Order.

Context (le : T → T → Prop).
Hypothesis le_refl : ∀ a, le a a.
Hypothesis le_trans : ∀ a b c, le a b → le b c → le a c.
Hypothesis le_max_l : ∀ a b, le a (max a b).
Hypothesis le_max_r : ∀ a b, le b (max a b).

#[local] Abbreviation follows := (follows max le).
#[local] Abbreviation chained := (chained add max le).

Lemma chained_snoc (exact : Prop) (p0 : T) (fs : list (Scheduled T))
    (f : Scheduled T) :
  chained exact p0 fs →
  follows exact (from_option end_time p0 (last fs)) f →
  chained exact p0 (fs ++ [f]).
Proof.
  intros [Hhead Hpairs] Hf. split.
  - intros g Hg. destruct fs as [|g' fs]; simplify_eq/=; [done|]. by apply Hhead.
  - intros n a b Ha Hb.
    destruct (decide (S n < length fs)) as [Hlt|Hge].
    + rewrite lookup_app_l in Ha, Hb by lia. by apply (Hpairs n).
    + pose proof (lookup_lt_Some _ _ _ Hb) as Hlen.
      rewrite length_app in Hlen. simpl in Hlen.
      assert (S n = length fs) as Hn by lia.
      rewrite lookup_app_l in Ha by lia.
      rewrite lookup_app_r, Hn, Nat.sub_diag in Hb by lia.
      simplify_eq/=.
      assert (last fs = Some a) as Hlast.
      { rewrite last_lookup. by replace (pred (length fs)) with n by lia. }
      by rewrite Hlast in Hf.
Qed.

Lemma chained_weaken (exact exact' : Prop) (p0 : T) (fs : list (Scheduled T)) :
  (exact' → exact) → chained exact p0 fs → chained exact' p0 fs.
Proof.
  intros Himp [Hhead Hpairs]. split.
  - intros g Hg. destruct (Hhead g Hg) as (? & ? & ?). split_and!; auto.
  - intros n a b Ha Hb. destruct (Hpairs n a b Ha Hb) as (? & ? & ?).
    split_and!; auto.
Qed.

(** The schedule of a run of the open session without interruption,
    with the running end it leaves behind. *)
Lemma run_schedule (inputs : list Input) (st : State T) :
  audioContext st = true →
  Forall (λ i, is_interruption i = false) inputs →
  let exact := Forall (λ i, is_undecodable i = false) inputs in
  ∃ new,
    started (run st inputs) = started st ++ new
    ∧ (λ f, (at_clock f, duration f)) <$> new = frames inputs
    ∧ chained exact (nextStartTime st) new
    ∧ le (from_option end_time (nextStartTime st) (last new))
         (nextStartTime (run st inputs))
    ∧ (exact →
       nextStartTime (run st inputs)
         = from_option end_time (nextStartTime st) (last new)).
Proof.
  intros Hctx. induction inputs as [|i inputs IH] using rev_ind; intros Hall.
  - exists []. rewrite app_nil_r. split_and!; try done.
  - apply Forall_app in Hall as [Hall Hi]. rewrite Forall_singleton in Hi.
    destruct (IH Hall) as (new & Hnew & Hframes & Hchain & Hle & Hexact).
    simpl. rewrite run_snoc, frames_snoc.
    set (exact' := Forall (λ i, is_undecodable i = false) (inputs ++ [i])).
    assert (exact' → Forall (λ i, is_undecodable i = false) inputs
                     ∧ is_undecodable i = false) as Hexact'.
    { intros H. apply Forall_app in H as [H1 H2].
      by rewrite Forall_singleton in H2. }
    assert (chained exact' (nextStartTime st) new) as Hchain'.
    { eapply chained_weaken; [|exact Hchain]. intros H. by apply Hexact'. }
    pose proof (step_schedule (run st inputs) i) as Hstep.
    rewrite run_audioContext in Hstep. specialize (Hstep Hctx Hi).
    assert (∀ a b, started (step (run st inputs) i) = started (run st inputs)
                   → nextStartTime (step (run st inputs) i) = b
                   → (a : list (T * T)) = []
                   → le (nextStartTime (run st inputs)) b
                   → (exact' → b = nextStartTime (run st inputs))
                   → ∃ new0,
                       started (step (run st inputs) i) = started st ++ new0
                       ∧ (λ f, (at_clock f, duration f)) <$> new0 = frames inputs ++ a
                       ∧ chained exact' (nextStartTime st) new0
                       ∧ le (from_option end_time (nextStartTime st) (last new0))
                            (nextStartTime (step (run st inputs) i))
                       ∧ (exact' →
                          nextStartTime (step (run st inputs) i)
                            = from_option end_time (nextStartTime st) (last new0)))
      as Hsame.
    { intros a b Hs Hn -> Hb Hbe. exists new.
      rewrite Hs, Hn, app_nil_r. split_and!; try done.
      - by eapply le_trans.
      - intros He. rewrite (Hbe He). apply Hexact. by apply Hexact'. }
    destruct i as [clock msg|src].
    + destruct (audio msg) as [| | |d] eqn:Haudio.
      * destruct Hstep as [Hs Hn]. by apply (Hsame [] _ Hs Hn).
      * destruct Hstep as [Hs Hn]. by apply (Hsame [] _ Hs Hn).
      * destruct Hstep as [Hs Hn]. apply (Hsame [] _ Hs Hn); [done|apply le_max_l|].
        intros He. apply Hexact' in He as [_ He]. simpl in He.
        by rewrite Haudio in He.
      * destruct Hstep as [Hs Hn].
        set (f := {| source := length (started (run st inputs)); at_clock := clock;
                     start := max (nextStartTime (run st inputs)) clock;
                     duration := d |}) in *.
        exists (new ++ [f]). rewrite Hs, Hnew, Hn, app_assoc, fmap_app, Hframes.
        split_and!; [done|done| | |].
        -- apply chained_snoc; [done|]. split_and!.
           ++ eapply le_trans; [exact Hle|]. apply le_max_l.
           ++ apply le_max_r.
           ++ intros He. cbn. f_equal. apply Hexact. by apply Hexact'.
        -- rewrite last_snoc. apply le_refl.
        -- intros _. by rewrite last_snoc.
    + destruct Hstep as [Hs Hn]. by apply (Hsame [] _ Hs Hn).
Qed.


End Order.

(** What a message with audio that decodes and no interruption
    schedules in an open session. *)
Lemma onmessage_frame clock msg d (st : State T) :
  audio msg = Frame d → interrupted msg = false → audioContext st = true →
  started (onmessage clock msg st) =
    started st ++
      [ {| source := length (started st); at_clock := clock;
           start := max (nextStartTime st) clock; duration := d |} ]
  ∧ sources (onmessage clock msg st) = {[ length (started st) ]} ∪ sources st.
Proof.
  intros Hd Hi Hctx. unfold LiveAudio.onmessage, handle_interrupted, handle_audio.
  rewrite Hd, Hctx. cbn. by rewrite Hi.
Qed.


End LiveAudioFacts.





(** * Decision records *)

Section DecisionFacts.

Import Decisions.

Implicit Types (h : Heap) (st : AppState).

Lemma alloc_spec c h l h' :
  alloc c h = (l, h') → h !! l = None ∧ h' !! l = Some c ∧ h ⊆ h'.
Proof.
  unfold alloc. intros [= <- <-].
  assert (h !! fresh (dom h) = None) as Hfresh
    by apply not_elem_of_dom, is_fresh.
  split_and!; [done| |].
  - by rewrite lookup_insert_eq.
  - by apply insert_subseteq.
Qed.

Lemma read_array_mono h h' l items :
  h ⊆ h' → read_array h l = Some items → read_array h' l = Some items.
Proof.
  unfold read_array. intros Hsub H.
  destruct (h !! l) as [c|] eqn:Hl; [|done].
  by rewrite (lookup_weaken _ _ _ _ Hl Hsub).
Qed.

Lemma read_obj_mono h h' l o :
  h ⊆ h' → read_obj h l = Some o → read_obj h' l = Some o.
Proof.
  unfold read_obj. intros Hsub H.
  destruct (h !! l) as [c|] eqn:Hl; [|done].
  by rewrite (lookup_weaken _ _ _ _ Hl Hsub).
Qed.

(** A heap that only grows keeps the value of every profile it holds. *)
Lemma read_profile_mono h h' l p :
  h ⊆ h' → read_profile h l = Some p → read_profile h' l = Some p.
Proof.
  unfold read_profile. intros Hsub H.
  destruct (read_obj h l) as [o|] eqn:Ho; [|done].
  rewrite (read_obj_mono _ _ _ _ Hsub Ho). simpl in *.
  repeat match type of H with
  | context [read_array h ?a] =>
      let E := fresh "E" in
      destruct (read_array h a) eqn:E; [|done];
      rewrite (read_array_mono _ _ _ _ Hsub E); simpl in *
  end.
  done.
Qed.

(** Parsing a profile text builds the value out of cells that did not
    exist before. *)
Lemma alloc_profile_spec p h l h' :
  alloc_profile p h = (l, h') →
  h ⊆ h' ∧ h !! l = None ∧ read_profile h' l = Some p
  ∧ ∃ o, read_obj h' l = Some o ∧ ∀ c, h !! get_category c o = None.
Proof.
  unfold alloc_profile. intros H.
  destruct (alloc (Arr (values p)) h) as [v h1] eqn:E1.
  destruct (alloc (Arr (personalityTraits p)) h1) as [t h2] eqn:E2.
  destruct (alloc (Arr (mentalModels p)) h2) as [m h3] eqn:E3.
  destruct (alloc (Arr (workHabits p)) h3) as [w h4] eqn:E4.
  destruct (alloc (Arr (decisionPrinciples p)) h4) as [d h5] eqn:E5.
  destruct (alloc (Arr (interests p)) h5) as [i h6] eqn:E6.
  apply alloc_spec in E1 as (F1 & L1 & S1), E2 as (F2 & L2 & S2),
    E3 as (F3 & L3 & S3), E4 as (F4 & L4 & S4), E5 as (F5 & L5 & S5),
    E6 as (F6 & L6 & S6), H as (F7 & L7 & S7).
  assert (h5 ⊆ h') as T5 by (etrans; [exact S6|exact S7]).
  assert (h4 ⊆ h') as T4 by (etrans; [exact S5|exact T5]).
  assert (h3 ⊆ h') as T3 by (etrans; [exact S4|exact T4]).
  assert (h2 ⊆ h') as T2 by (etrans; [exact S3|exact T3]).
  assert (h1 ⊆ h') as T1 by (etrans; [exact S2|exact T2]).
  assert (h ⊆ h') as T0 by (etrans; [exact S1|exact T1]).
  assert (h ⊆ h2) as S02 by (etrans; [exact S1|exact S2]).
  assert (h ⊆ h3) as S03 by (etrans; [exact S02|exact S3]).
  assert (h ⊆ h4) as S04 by (etrans; [exact S03|exact S4]).
  assert (h ⊆ h5) as S05 by (etrans; [exact S04|exact S5]).
  assert (h ⊆ h6) as S06 by (etrans; [exact S05|exact S6]).
  assert (∀ k a, h ⊆ k → k !! a = None → h !! a = None) as Hnone.
  { intros k a Hk Ha. destruct (h !! a) eqn:Hh; [|done].
    by rewrite (lookup_weaken _ _ _ _ Hh Hk) in Ha. }
  pose proof (lookup_weaken _ _ _ _ L1 T1) as Hv.
  pose proof (lookup_weaken _ _ _ _ L2 T2) as Ht.
  pose proof (lookup_weaken _ _ _ _ L3 T3) as Hm.
  pose proof (lookup_weaken _ _ _ _ L4 T4) as Hw.
  pose proof (lookup_weaken _ _ _ _ L5 T5) as Hd.
  pose proof (lookup_weaken _ _ _ _ L6 S7) as Hi.
  split_and!; [done|by apply (Hnone h6)| |].
  - unfold read_profile, read_obj, read_array. rewrite L7. simpl.
    rewrite Hv, Ht, Hm, Hw, Hd, Hi. simpl. by destruct p.
  - eexists. unfold read_obj. rewrite L7. split; [done|].
    intros []; simpl; [done|by apply (Hnone h1)|by apply (Hnone h2)
      |by apply (Hnone h3)|by apply (Hnone h4)|by apply (Hnone h5)].
Qed.

Lemma extends_refl st : extends st st.
Proof. by split. Qed.

Lemma extends_trans st1 st2 st3 :
  extends st1 st2 → extends st2 st3 → extends st1 st3.
Proof. intros [Hh Hd] [Hh' Hd']. split; [by etrans|congruence]. Qed.

Lemma handleUpdateProfile_extends now l st :
  extends st (handleUpdateProfile now l st).
Proof.
  unfold handleUpdateProfile.
  destruct (read_obj (heap st) l) as [o|]; [|apply extends_refl].
  destruct (alloc _ (heap st)) as [updated h] eqn:E.
  apply alloc_spec in E as (_ & _ & Hsub). by split.
Qed.

Lemma updateProfileSection_extends now c l st :
  extends st (updateProfileSection now c l st).
Proof.
  unfold updateProfileSection.
  destruct (read_obj (heap st) (profile st)) as [o|]; [|apply extends_refl].
  destruct (alloc _ (heap st)) as [newProfile h] eqn:E.
  apply alloc_spec in E as (_ & _ & Hsub).
  eapply extends_trans; [|apply handleUpdateProfile_extends]. by split.
Qed.

Lemma handleAddItem_extends now c newItem st :
  extends st (handleAddItem now c newItem st).
Proof.
  unfold handleAddItem.
  destruct (JsString.blank newItem); [apply extends_refl|].
  case_bool_decide; [apply extends_refl|].
  destruct (alloc _ (heap st)) as [newItems h] eqn:E.
  apply alloc_spec in E as (_ & _ & Hsub).
  eapply extends_trans; [|apply updateProfileSection_extends]. by split.
Qed.

(** The one write in place, [splice], goes to the array that was
    copied for it just before. *)
Lemma handleRemoveItem_extends now c index st :
  extends st (handleRemoveItem now c index st).
Proof.
  unfold handleRemoveItem.
  destruct (alloc _ (heap st)) as [newItems h] eqn:E.
  unfold alloc in E. injection E as <- <-.
  eapply extends_trans; [|apply updateProfileSection_extends].
  split; [|done]. simpl. rewrite insert_insert_eq.
  apply insert_subseteq, not_elem_of_dom, is_fresh.
Qed.

Lemma install_parsed_extends now p st :
  extends st (install_parsed now p st).
Proof.
  unfold install_parsed.
  destruct (alloc_profile p (heap st)) as [newProfile h] eqn:E.
  apply alloc_profile_spec in E as (Hsub & _).
  eapply extends_trans; [|apply handleUpdateProfile_extends]. by split.
Qed.

Lemma mutate_extends st m : extends st (mutate st m).
Proof.
  destruct m as [now [c newItem|c index|p|p]]; simpl.
  - apply handleAddItem_extends.
  - apply handleRemoveItem_extends.
  - apply install_parsed_extends.
  - apply install_parsed_extends.
Qed.

(** No change of the profile writes to a cell that existed before or
    touches the decisions. *)
Lemma mutate_all_extends ms st : extends st (mutate_all st ms).
Proof.
  revert st. induction ms as [|m ms IH]; intros st; [apply extends_refl|].
  simpl. eapply extends_trans; [apply mutate_extends|apply IH].
Qed.

(** C9: the record [handleSimulate] creates holds, as [contextProfile],
    a new object with new arrays whose value is the value of the profile
    the decision was simulated for; and whatever edits, merges and
    imports follow, the decisions are the same records and the
    [contextProfile] of each of them reads as before. *)
Theorem decision_snapshot_immutable question isSimulating result now_id now_ts
    during st0 record st1 after :
  handleSimulate question isSimulating result now_id now_ts during st0
    = (Some record, st1) →
  decisions st1 = decisions st0 ++ [record]
  ∧ heap (mutate_all st0 during) !! contextProfile record = None
  ∧ (∃ o, read_obj (heap st1) (contextProfile record) = Some o
          ∧ ∀ c, heap (mutate_all st0 during) !! get_category c o = None)
  ∧ (∃ p, read_profile (heap st0) (profile st0) = Some p
          ∧ read_profile (heap st1) (contextProfile record) = Some p
          ∧ read_profile (heap (mutate_all st1 after)) (contextProfile record)
              = Some p)
  ∧ decisions (mutate_all st1 after) = decisions st1
  ∧ ∀ r p, r ∈ decisions st1 →
      read_profile (heap st1) (contextProfile r) = Some p →
      read_profile (heap (mutate_all st1 after)) (contextProfile r) = Some p.
Proof.
  unfold handleSimulate, newRecord. cbn [render p_profile p_decisions].
  intros H.
  destruct (JsString.blank question || isSimulating); [done|].
  destruct (read_profile (heap st0) (profile st0)) as [p|] eqn:Hp; [|done].
  cbn [mbind option_bind] in H.
  destruct (_ && _); [done|].
  destruct result as [[decision experts]|e]; [|done].
  pose proof (mutate_all_extends during st0) as [Hduring _].
  pose proof (read_profile_mono _ _ _ _ Hduring Hp) as Hp'.
  unfold deep_copy in H. rewrite Hp' in H. cbn [mbind option_bind] in H.
  destruct (alloc_profile p (heap (mutate_all st0 during)))
    as [snapshot h] eqn:E.
  injection H as <- <-. cbn [contextProfile heap decisions handleAddDecision p_decisions].
  apply alloc_profile_spec in E as (Hsub & Hfresh & Hread & Hobj).
  set (st1 := handleAddDecision (render st0) _ _).
  pose proof (mutate_all_extends after st1) as [Hafter Hdec].
  split_and!; [done|done|done| |done|].
  - exists p. split_and!; [done|done|].
    by apply (read_profile_mono (heap st1)).
  - intros r q _ Hq. by apply (read_profile_mono (heap st1)).
Qed.

End DecisionFacts.

(** A decision simulated on a profile that values directness,
    followed by a manual removal, a manual addition and an import. *)
Lemma decision_snapshot_immutable_witness :
  ∃ record,
    Decisions.example_simulation.1 = Some record
    ∧ Decisions.read_profile
        (Decisions.heap
           (Decisions.mutate_all Decisions.example_simulation.2
              Decisions.example_edits))
        (Decisions.contextProfile record)
      = Some ChatTurn.example_profile.
Proof.
  destruct Decisions.example_simulation as [[record|] st1] eqn:E.
  - exists record. split; [done|].
    destruct (decision_snapshot_immutable _ _ _ _ _ _ _ _ _
                Decisions.example_edits E)
      as (_ & _ & _ & (p & Hp & _ & Hafter) & _).
    cbn [fst snd]. rewrite Hafter, <- Hp. by vm_compute.
  - exfalso. vm_compute in E. discriminate E.
Defined.

(** * More on the AI Gateway *)

Section GatewayShape.

Import Gateway.

Context {T : Type}.
Implicit Types (operation : nat → result T) (fb : option (result T)).

(** Every run is some retries with their waits, one last attempt, and
    then the fallback or not. *)
Lemma retry_trace_shape_aux operation done retries delay fb :
  ∃ k, k ≤ retries
    ∧ ((retryOperation operation done retries delay fb).1 =
         flat_map (λ ms, [Attempt; Sleep ms]) (backoff delay k) ++ [Attempt]
       ∨ (retryOperation operation done retries delay fb).1 =
         flat_map (λ ms, [Attempt; Sleep ms]) (backoff delay k)
           ++ [Attempt; Fallback]).
Proof.
  revert done delay.
  induction retries as [|retries IH]; intros done delay; cbn [retryOperation].
  - exists 0. split; [done|].
    destruct (operation done) as [v|e]; [by left|].
    destruct fb as [r|]; [|by left].
    rewrite orb_true_r. by right.
  - destruct (operation done) as [v|e]; [exists 0; split; [lia|by left]|].
    destruct (isUnavailable e) eqn:He.
    + destruct (IH (S done) (delay * 2)%Z) as (k & Hk & Hshape).
      destruct (retryOperation operation (S done) retries (delay * 2) fb)
        as [tr r].
      exists (S k). split; [lia|]. rewrite backoff_S. cbn [fst flat_map] in *.
      destruct Hshape as [-> | ->]; [by left|by right].
    + exists 0. split; [lia|].
      destruct fb as [r|]; by left.
Qed.

(** X1.  The fallback, when it is run, is the last thing a call does, and
    every wait is between one attempt on the primary tier and the
    next. *)
Theorem retry_trace_shape operation done retries delay fb :
  ∃ k, k ≤ retries
    ∧ ∃ tail, (tail = [] ∨ tail = [Fallback])
        ∧ (retryOperation operation done retries delay fb).1 =
            flat_map (λ ms, [Attempt; Sleep ms]) (backoff delay k)
              ++ Attempt :: tail.
Proof.
  destruct (retry_trace_shape_aux operation done retries delay fb)
    as (k & Hk & [H | H]); exists k; (split; [done|]).
  - exists []. split; [by left|]. by rewrite H.
  - exists [Fallback]. split; [by right|]. by rewrite H.
Qed.

Lemma sleeps_flat_map l tail :
  sleeps (flat_map (λ ms, [Attempt; Sleep ms]) l ++ Attempt :: tail) =
  l ++ sleeps tail.
Proof.
  induction l as [|ms l IH]; [done|].
  cbn [flat_map app]. unfold sleeps in *. cbn [omap list_omap].
  by rewrite IH.
Qed.

Lemma backoff_sum delay k :
  foldr Z.add 0%Z (backoff delay k) = (delay * (2 ^ Z.of_nat k - 1))%Z.
Proof.
  revert delay. induction k as [|k IH]; intros delay.
  - cbn. lia.
  - rewrite backoff_S. cbn [foldr]. rewrite IH.
    rewrite Nat2Z.inj_succ, Z.pow_succ_r by lia. lia.
Qed.

(** X2.  The time a call spends waiting is bounded by the policy alone:
    with a base delay that is not negative, at most
    [delay * (2 ^ retries - 1)] milliseconds, whatever the operation
    does. *)
Theorem retry_total_wait_bounded operation done retries delay fb :
  (0 ≤ delay)%Z →
  (0 ≤ foldr Z.add 0 (sleeps (retryOperation operation done retries delay fb).1)
     ≤ delay * (2 ^ Z.of_nat retries - 1))%Z.
Proof.
  intros Hdelay.
  destruct (retry_trace_shape_aux operation done retries delay fb)
    as (k & Hk & H).
  assert (sleeps (retryOperation operation done retries delay fb).1
          = backoff delay k) as ->.
  { destruct H as [-> | ->]; rewrite sleeps_flat_map; by rewrite app_nil_r. }
  rewrite backoff_sum.
  assert (1 ≤ 2 ^ Z.of_nat k ≤ 2 ^ Z.of_nat retries)%Z.
  { split; [|apply Z.pow_le_mono_r; lia].
    pose proof (Z.pow_pos_nonneg 2 (Z.of_nat k)). lia. }
  nia.
Qed.

(** X3.  An attempt that succeeds after [k] transient failures, [k] within
    the retries, ends the call with its value: [k + 1] attempts, the
    first [k] waits of the schedule, and no fallback. *)
Theorem retry_recovers operation (error : nat → JsError) done retries delay fb k v :
  k ≤ retries →
  (∀ i, i < k → operation (done + i) = Err (error i)
                ∧ isUnavailable (error i) = true) →
  operation (done + k) = Ok v →
  retryOperation operation done retries delay fb =
    (flat_map (λ ms, [Attempt; Sleep ms]) (backoff delay k) ++ [Attempt], Ok v).
Proof.
  revert done retries delay error.
  induction k as [|k IH]; intros done retries delay error Hk Hfail Hok.
  - rewrite Nat.add_0_r in Hok.
    destruct retries; cbn [retryOperation]; by rewrite Hok.
  - destruct retries as [|retries]; [lia|].
    destruct (Hfail 0 ltac:(lia)) as [He Ht]. rewrite Nat.add_0_r in He.
    cbn [retryOperation]. rewrite He, Ht.
    rewrite (IH (S done) retries (delay * 2)%Z (λ i, error (S i))).
    + by rewrite backoff_S.
    + lia.
    + intros i Hi. replace (S done + i) with (done + S i) by lia.
      apply Hfail. lia.
    + by replace (S done + k) with (done + S k) by lia.
Qed.

(** X4.  A failure that is not transient ends the call at once while
    retries are left: no wait, no further attempt, and no fallback even
    if one is configured.  (With no retry left the fallback is run.) *)
Theorem retry_permanent_failure operation (error : nat → JsError) done retries
    delay fb k e :
  k < retries →
  (∀ i, i < k → operation (done + i) = Err (error i)
                ∧ isUnavailable (error i) = true) →
  operation (done + k) = Err e → isUnavailable e = false →
  retryOperation operation done retries delay fb =
    (flat_map (λ ms, [Attempt; Sleep ms]) (backoff delay k) ++ [Attempt], Err e).
Proof.
  revert done retries delay error.
  induction k as [|k IH]; intros done retries delay error Hk Hfail Herr Hperm.
  - rewrite Nat.add_0_r in Herr.
    destruct retries as [|retries]; [lia|].
    cbn [retryOperation]. rewrite Herr, Hperm.
    destruct fb; by rewrite ?Hperm.
  - destruct retries as [|retries]; [lia|].
    destruct (Hfail 0 ltac:(lia)) as [He Ht]. rewrite Nat.add_0_r in He.
    cbn [retryOperation]. rewrite He, Ht.
    rewrite (IH (S done) retries (delay * 2)%Z (λ i, error (S i))).
    + by rewrite backoff_S.
    + lia.
    + intros i Hi. replace (S done + i) with (done + S i) by lia.
      apply (Hfail (S i)). lia.
    + by replace (S done + k) with (done + S k) by lia.
    + done.
Qed.

End GatewayShape.

(** One transient failure, then an answer. *)
Lemma retry_recovers_witness :
  Gateway.retryOperation
    (λ k, if decide (k = 0)
          then Gateway.Err {| Gateway.message := Some "service unavailable";
                              Gateway.status := None |}
          else Gateway.Ok "answer")
    0 2 1000 (Some (Gateway.Ok "fallback answer"))
  = ([Gateway.Attempt; Gateway.Sleep 1000; Gateway.Attempt], Gateway.Ok "answer").
Proof.
  apply (retry_recovers _
           (λ _, {| Gateway.message := Some "service unavailable";
                    Gateway.status := None |}) 0 2 1000 _ 1 "answer").
  - lia.
  - intros i Hi. assert (i = 0) as -> by lia. split; reflexivity.
  - reflexivity.
Defined.

(** A rejected request (status 400) with a fallback configured. *)
Lemma retry_permanent_failure_witness :
  Gateway.retryOperation
    (λ _, Gateway.Err (T:=string)
            {| Gateway.message := Some "bad request"; Gateway.status := Some 400%Z |})
    0 2 1000 (Some (Gateway.Ok "fallback answer"))
  = ([Gateway.Attempt],
     Gateway.Err {| Gateway.message := Some "bad request";
                    Gateway.status := Some 400%Z |}).
Proof.
  apply (retry_permanent_failure _ (λ _, {| Gateway.message := None;
                                            Gateway.status := None |})
           0 2 1000 _ 0).
  - lia.
  - intros i Hi. lia.
  - reflexivity.
  - reflexivity.
Defined.

(** Three retries from one second wait seven seconds at most. *)
Lemma retry_total_wait_bounded_witness :
  (0 ≤ foldr Z.add 0
         (Gateway.sleeps
            (Gateway.retryOperation
               (λ _, Gateway.Err (T:=string)
                       {| Gateway.message := None; Gateway.status := Some 503%Z |})
               0 3 1000 None).1)
     ≤ 1000 * (2 ^ Z.of_nat 3 - 1))%Z.
Proof.
  apply (retry_total_wait_bounded
           (λ _, Gateway.Err (T:=string)
                   {| Gateway.message := None; Gateway.status := Some 503%Z |})
           0 3 1000 None).
  lia.
Defined.

(** * Chat requests and task extraction *)

Section ChatGatewayFacts.

Import Gateway ChatGateway.

(** X5.  While the service is unavailable, a chat request tries its primary
    tier three times, one and two seconds apart, and then the fast tier
    once if extended reasoning was asked for, in which case the primary
    tier was the other one; without extended reasoning there is no
    fallback and the request fails with the last error. *)
Theorem chat_tiers_under_outage {R} (apiKey : option string) (no_key : JsError)
    (chat : Model → nat → result R) (error : nat → JsError) (options : Options) :
  is_Some (given apiKey) →
  (∀ k, chat (primaryModel options) k = Err (error k)) →
  (∀ k, isUnavailable (error k) = true) →
  models_called options (sendChatMessage apiKey no_key chat options).1 =
      replicate 3 (primaryModel options)
        ++ (if useThinking options then [MODEL_CHAT_FLASH] else [])
  ∧ sleeps (sendChatMessage apiKey no_key chat options).1 = [1000; 2000]%Z
  ∧ (sendChatMessage apiKey no_key chat options).2 =
      (if useThinking options then chat MODEL_CHAT_FLASH 0 else Err (error 2))
  ∧ (∀ m, fallback options = Some m → m ≠ primaryModel options)
  ∧ (primaryModel options = MODEL_CHAT_FLASH ↔
       useThinking options = false ∧ useSearch options = true).
Proof.
  intros [key Hkey] Hfail Htransient.
  unfold sendChatMessage, models_called. rewrite Hkey.
  cbn [retryOperation]. rewrite !Hfail, !Htransient.
  unfold fallback, primaryModel.
  destruct (useThinking options), (useSearch options); cbn;
    split_and!; try done; try (intros m [= <-]; done);
    try (split; [intros [= ]|intros [? ?]; done]); by split.
Qed.

End ChatGatewayFacts.

(** A request with extended reasoning during an outage. *)
Lemma chat_tiers_under_outage_witness :
  ChatGateway.models_called
    {| ChatGateway.useThinking := true; ChatGateway.useSearch := true;
       ChatGateway.fileData := None; ChatGateway.image := None;
       ChatGateway.mimeType := None; ChatGateway.systemInstruction := None |}
    (ChatGateway.sendChatMessage (Some "key")
       {| Gateway.message := Some "no key"; Gateway.status := None |}
       (λ m _, if decide (m = ChatGateway.MODEL_CHAT_PRO)
               then Gateway.Err {| Gateway.message := None;
                                   Gateway.status := Some 503%Z |}
               else Gateway.Ok "answer")
       {| ChatGateway.useThinking := true; ChatGateway.useSearch := true;
          ChatGateway.fileData := None; ChatGateway.image := None;
          ChatGateway.mimeType := None; ChatGateway.systemInstruction := None |}).1
  = [ChatGateway.MODEL_CHAT_PRO; ChatGateway.MODEL_CHAT_PRO;
     ChatGateway.MODEL_CHAT_PRO; ChatGateway.MODEL_CHAT_FLASH].
Proof.
  apply (chat_tiers_under_outage (Some "key") _ _
           (λ _, {| Gateway.message := None; Gateway.status := Some 503%Z |})).
  - by eexists.
  - intros k. reflexivity.
  - intros k. reflexivity.
Defined.

Section TaskExtractorFacts.

Import Gateway Json TaskExtractor.

(** X6.  A response without text, or whose object has no (or a falsy)
    [tasks], is the valid empty outcome of one attempt, not a failure;
    a response that is [null] is a failure that is not retried. *)
Theorem extract_edge_outcomes (responses : nat → result Blob) (b : Blob) :
  responses 0 = Ok b →
  ((b = Absent ∨ ∃ fs, b = Parsed (JObj fs) ∧ truthy (assoc "tasks" fs) = false) →
     extractTasksFromText responses = ([Attempt], Ok (JArr [])))
  ∧ (b = Parsed JNull →
     extractTasksFromText responses = ([Attempt], Err (null_read "tasks"))).
Proof.
  intros Hb. unfold extractTasksFromText. cbn [retryOperation]. rewrite Hb.
  split.
  - intros [-> | (fs & -> & Hfs)]; [done|].
    cbn [runExtraction get]. by rewrite Hfs.
  - intros ->. by vm_compute.
Qed.

(** X7.  What an import installs: the arrays of the file under the six
    categories (an empty list where the file has none), nothing else of
    the file, and the time of the import as [lastUpdated], whatever the
    file says. *)
Theorem import_installs (j : json) (now : string) (profile : json) :
  j ≠ JNull →
  handleFileChange (Parsed j) true now profile =
    JObj [ ("values", array_or_empty j "values");
           ("personalityTraits", array_or_empty j "personalityTraits");
           ("mentalModels", array_or_empty j "mentalModels");
           ("workHabits", array_or_empty j "workHabits");
           ("decisionPrinciples", array_or_empty j "decisionPrinciples");
           ("interests", array_or_empty j "interests");
           ("lastUpdated", JStr now) ].
Proof. intros Hj. by destruct j. Qed.

(** X8.  Once a profile has been through the sanitize step of the import
    (read at a clock that gives a non-empty date), sanitizing it again,
    at any later time, gives it back unchanged, and it has the six
    categories as arrays. *)
Theorem sanitize_is_stable (now now' : string) (j p : json) :
  now ≠ "" → sanitize now j = Some p →
  sanitize now' p = Some p ∧ shape_ok p = true.
Proof.
  intros Hnow Hs. split.
  - eapply sanitized_fixpoint; [by left|done].
  - by eapply sanitize_shape.
Qed.

(** X9.  An import that cannot be read, that is [null], or that the user
    does not confirm leaves the profile as it was. *)
Theorem import_failure_keeps_profile (file : Blob) (confirmLoad : bool)
    (now : string) (profile : json) :
  (file = Absent ∨ (∃ e, file = Malformed e) ∨ file = Parsed JNull
   ∨ confirmLoad = false) →
  handleFileChange file confirmLoad now profile = profile.
Proof.
  intros [-> | [[e ->] | [-> | ->]]]; [done..|].
  unfold handleFileChange. destruct file as [| |j]; [done..|].
  by destruct (sanitize now j).
Qed.

End TaskExtractorFacts.

(** The model answered with an object that has no tasks. *)
Lemma extract_edge_outcomes_witness :
  TaskExtractor.extractTasksFromText
    (λ _, Gateway.Ok (Json.Parsed (Json.JObj [("notes", Json.JStr "none")])))
  = ([Gateway.Attempt], Gateway.Ok (Json.JArr [])).
Proof.
  apply (extract_edge_outcomes _
           (Json.Parsed (Json.JObj [("notes", Json.JStr "none")])) eq_refl).
  right. eexists. split; reflexivity.
Defined.

(** An exported profile with a stray field and an old time stamp. *)
Lemma import_installs_witness :
  Json.handleFileChange
    (Json.Parsed (Json.JObj [("values", Json.JArr [Json.JStr "directness"]);
                             ("lastUpdated", Json.JStr "2020/1/1");
                             ("extra", Json.JNum 1)]))
    true "2026/1/2" Json.INITIAL_PROFILE
  = Json.JObj [ ("values", Json.JArr [Json.JStr "directness"]);
                ("personalityTraits", Json.JArr []);
                ("mentalModels", Json.JArr []);
                ("workHabits", Json.JArr []);
                ("decisionPrinciples", Json.JArr []);
                ("interests", Json.JArr []);
                ("lastUpdated", Json.JStr "2026/1/2") ].
Proof.
  apply (import_installs
           (Json.JObj [("values", Json.JArr [Json.JStr "directness"]);
                       ("lastUpdated", Json.JStr "2020/1/1");
                       ("extra", Json.JNum 1)])).
  discriminate.
Defined.

(** A file that is not JSON. *)
Lemma import_failure_keeps_profile_witness :
  Json.handleFileChange (Json.Malformed "Unexpected token") true "2026/1/2"
    Json.example_merged = Json.example_merged.
Proof.
  apply import_failure_keeps_profile. right. left. by eexists.
Defined.

(** A profile file with one category, sanitized on two days. *)
Lemma sanitize_is_stable_witness :
  ∃ p,
    Json.sanitize "2026/1/2" Json.example_completion = Some p
    ∧ Json.sanitize "2026/1/3" p = Some p.
Proof.
  eexists. split; [reflexivity|].
  apply (sanitize_is_stable "2026/1/2" "2026/1/3" Json.example_completion);
    [discriminate|reflexivity].
Defined.

(** * Chat sessions: what a turn shows and stores *)

Section ChatStoreFacts.

Import ChatTurn ChatStore.

Context (JSON_stringify : UserMemoryProfile → string).
Context (DEFAULT_TITLE ERROR_PREFIX : string).

#[local] Abbreviation turn := (turn JSON_stringify DEFAULT_TITLE ERROR_PREFIX).
#[local] Abbreviation handleSave := (handleSave DEFAULT_TITLE).

Lemma inject_roles ctx (h : list HistoryEntry) :
  h_role <$> inject ctx h = h_role <$> h.
Proof. destruct h as [|e rest]; [done|]. simpl. by destruct (parts e). Qed.

(** X10.  No entry of a history has the system role, so neither the welcome
    message nor the confirmation the analysis action appends is ever
    sent back as a turn of the conversation. *)
Theorem history_has_no_system_entry rc ra now st d :
  ChatTurn.handleSend JSON_stringify rc ra now st = Some d →
  Forall (λ e, h_role e ≠ SYSTEM) (history d).
Proof.
  intros H. apply handleSend_history in H.
  apply Forall_fmap with (f := h_role) (P := λ r, r ≠ SYSTEM).
  rewrite H, inject_roles, <- list_fmap_compose.
  apply Forall_fmap, Forall_forall. intros m Hm. simpl.
  unfold window in Hm. by apply list_elem_of_filter in Hm as [Hr _].
Qed.

(** X11.  A regeneration that is answered shows and stores the whole log as
    it was, the reply it was to replace included, followed by the new
    reply: the call reads the log of the render it was started in.  A
    regeneration that fails shows the log without the old reply, with
    the error message, and stores nothing. *)
Theorem regenerate_outcomes clock sid outcome st prev v :
  turn Regenerate clock sid outcome st prev = Some v →
  match outcome with
  | Answered text grounding =>
      ∃ reply,
        role reply = MODEL
        ∧ shown v = ChatTurn.messages st ++ [reply]
        ∧ sessions v =
            saveSession
              (handleSave sid (last_save clock).1 (last_save clock).2
                 (ChatTurn.messages st ++ [reply])) prev
  | Failed e =>
      ∃ errMsg,
        role errMsg = MODEL
        ∧ shown v = msgsToKeep st ++ [errMsg]
        ∧ sessions v = prev
  end.
Proof.
  unfold ChatStore.turn. intros H.
  destruct (dispatch JSON_stringify Regenerate (user_id clock) st)
    as [d|] eqn:Hd; [|done].
  simpl in Hd.
  apply handleRegenerate_retry in Hd as (u & i & _ & _ & _ & Hd).
  apply handleSend_retry in Hd as (Hlog & _ & Hsaved).
  cbn [mbind option_bind] in H. rewrite Hsaved, Hlog in H.
  destruct outcome as [text grounding|e]; simplify_eq; cbn [shown sessions].
  - eexists. split_and!; [|reflexivity|reflexivity]. done.
  - eexists. split_and!; [|reflexivity|reflexivity]. done.
Qed.

Lemma saved_session_stored (session : ChatSessionRecord)
    (prev : list ChatSessionRecord) :
  session ∈ handleSaveChatSession session prev.
Proof.
  unfold handleSaveChatSession.
  destruct (findIndex (id session) prev) as [idx|] eqn:Hf.
  - assert (idx < length prev) as Hlt.
    { revert idx Hf. induction prev as [|s0 prev IH]; intros idx; simpl; [done|].
      destruct (String.eqb (id s0) (id session)).
      - intros [= <-]. lia.
      - destruct (findIndex (id session) prev) as [n|]; [|done].
        intros [= <-]. specialize (IH n eq_refl). lia. }
    apply list_elem_of_lookup. exists idx. by apply list_lookup_insert_eq.
  - apply elem_of_app. right. apply list_elem_of_singleton. done.
Qed.

(** X12.  A send that fails shows the user message and then the error
    message, and the failing turn stores the log with the user message
    only, without the error message.  The error message stays in the
    log on screen, so it is stored later: the next send that is started
    from that log, in a session with an id, stores a log that contains
    it, whether that send is answered or fails too. *)
Theorem failed_send_is_not_stored clock sid e st prev v :
  turn SendInput clock sid (Failed e) st prev = Some v →
  ∃ userMsg errMsg,
    role userMsg = USER ∧ content userMsg = input st
    ∧ role errMsg = MODEL
    ∧ shown v = ChatTurn.messages st ++ [userMsg; errMsg]
    ∧ sessions v =
        saveSession
          (handleSave sid (first_save clock).1 (first_save clock).2
             (ChatTurn.messages st ++ [userMsg])) prev
    ∧ ∀ clock' sid' i outcome' st' prev' v',
        ChatTurn.messages st' = shown v →
        ChatGateway.given sid' = Some i →
        turn SendInput clock' sid' outcome' st' prev' = Some v' →
        ∃ record,
          record ∈ sessions v' ∧ id record = i
          ∧ errMsg ∈ ChatStore.messages record.
Proof.
  unfold ChatStore.turn. intros H.
  destruct (dispatch JSON_stringify SendInput (user_id clock) st)
    as [d|] eqn:Hd; [|done].
  simpl in Hd.
  apply handleSend_new in Hd as (userMsg & Hlog & Hr & Hc & _ & Hsaved).
  cbn [mbind option_bind] in H. rewrite Hsaved, Hlog in H. simplify_eq.
  eexists userMsg, _. cbn [shown sessions].
  split_and!; [done|done| |by rewrite <- app_assoc|done|]; [done|].
  intros clock' sid' i outcome' st' prev' v' Hshown Hsid H.
  destruct (dispatch JSON_stringify SendInput (user_id clock') st')
    as [d'|] eqn:Hd'; [|done].
  simpl in Hd'.
  apply handleSend_new in Hd' as (userMsg' & Hlog' & _ & _ & _ & Hsaved').
  cbn [mbind option_bind] in H. rewrite Hsaved', Hlog', Hshown in H.
  unfold ChatStore.handleSave in H. rewrite Hsid in H. cbn [saveSession] in H.
  destruct outcome' as [text grounding|e']; simplify_eq; cbn [sessions];
    eexists; (split; [apply saved_session_stored|]); cbn [id ChatStore.messages];
    (split; [done|]); rewrite !elem_of_app, !elem_of_cons; tauto.
Qed.

Lemma string_app_length (s t : string) :
  String.length (s +:+ t) = String.length s + String.length t.
Proof.
  induction s as [|a s IH]; [done|].
  change (String a s +:+ t) with (String a (s +:+ t)). simpl. by rewrite IH.
Qed.

Lemma string_app_nil (s : string) : s +:+ "" = s.
Proof.
  induction s as [|a s IH]; [done|].
  change (String a s +:+ "") with (String a (s +:+ "")). by f_equal.
Qed.

Lemma substring_length n (s : string) :
  String.length (String.substring 0 n s) = Nat.min n (String.length s).
Proof.
  revert s. induction n as [|n IH]; intros [|a s]; simpl; try done.
  by rewrite IH.
Qed.

Lemma substring_all n (s : string) :
  String.length s ≤ n → String.substring 0 n s = s.
Proof.
  revert s. induction n as [|n IH]; intros [|a s] Hn; simpl in *;
    try done; [lia|].
  rewrite IH; [done|lia].
Qed.

(** X13.  The title of a session with a user message is the content of the
    first one when that fits the limit, and is never longer than the
    limit and the three dots. *)
Theorem title_bounded limit msgs m :
  firstUser msgs = Some m →
  role m = USER ∧ m ∈ msgs
  ∧ String.length (make_title limit DEFAULT_TITLE msgs) ≤ limit + 3
  ∧ (String.length (content m) ≤ limit →
     make_title limit DEFAULT_TITLE msgs = content m).
Proof.
  unfold make_title, firstUser. intros H.
  destruct (list_find _ msgs) as [[i m']|] eqn:Hfind; simplify_eq/=.
  apply list_find_Some in Hfind as (Hi & Hr & _).
  split_and!; [done|by eapply list_elem_of_lookup_2| |].
  - rewrite string_app_length, substring_length.
    destruct (Nat.ltb_spec limit (String.length (content m))); simpl; lia.
  - intros Hle. rewrite substring_all by done.
    destruct (Nat.ltb_spec limit (String.length (content m))); [lia|].
    apply string_app_nil.
Qed.

Lemma findIndex_Some i prev idx :
  findIndex i prev = Some idx →
  ∃ s, prev !! idx = Some s ∧ id s = i.
Proof.
  revert idx. induction prev as [|s prev IH]; intros idx; simpl; [done|].
  destruct (String.eqb_spec (id s) i) as [Heq|Hne].
  - intros [= <-]. by exists s.
  - destruct (findIndex i prev) as [n|]; [|done].
    intros [= <-]. by apply IH.
Qed.

Lemma findIndex_None i prev :
  findIndex i prev = None → ∀ s, s ∈ prev → id s ≠ i.
Proof.
  induction prev as [|s prev IH]; simpl; [by intros _ s' ?%not_elem_of_nil|].
  destruct (String.eqb_spec (id s) i) as [Heq|Hne]; [done|].
  destruct (findIndex i prev) as [n|] eqn:Hf; [done|].
  intros _ s' [->|Hs']%elem_of_cons; [done|]. by apply IH.
Qed.

Lemma findIndex_insert i prev idx s :
  findIndex i prev = Some idx → id s = i →
  findIndex i (<[idx := s]> prev) = Some idx.
Proof.
  revert idx. induction prev as [|s0 prev IH]; intros idx; simpl; [done|].
  destruct (String.eqb_spec (id s0) i) as [Heq|Hne].
  - intros [= <-] Hs. simpl. by rewrite Hs, String.eqb_refl.
  - destruct (findIndex i prev) as [n|] eqn:Hf; [|done].
    intros [= <-] Hs. simpl.
    destruct (String.eqb_spec (id s0) i); [done|].
    by rewrite (IH n).
Qed.

Lemma findIndex_snoc i prev s :
  findIndex i prev = None → id s = i →
  findIndex i (prev ++ [s]) = Some (length prev).
Proof.
  induction prev as [|s0 prev IH]; simpl.
  - intros _ ->. by rewrite String.eqb_refl.
  - destruct (String.eqb_spec (id s0) i) as [Heq|Hne]; [done|].
    destruct (findIndex i prev) as [k|] eqn:Hf; [done|].
    intros _ Hs. by rewrite IH.
Qed.

(** X14.  Storing a session is an upsert by id: afterwards the session is
    what its id finds, every session with another id is still there, the
    store has grown by one exactly when the id was new, and ids that
    were unique are still unique. *)
Theorem save_chat_session_upsert (session : ChatSessionRecord)
    (prev : list ChatSessionRecord) :
  (∃ idx, findIndex (id session) (handleSaveChatSession session prev) = Some idx
          ∧ handleSaveChatSession session prev !! idx = Some session)
  ∧ (∀ s, s ∈ prev → id s ≠ id session → s ∈ handleSaveChatSession session prev)
  ∧ length (handleSaveChatSession session prev) =
      (if findIndex (id session) prev is Some _
       then length prev else S (length prev))
  ∧ (NoDup (id <$> prev) → NoDup (id <$> handleSaveChatSession session prev)).
Proof.
  unfold handleSaveChatSession.
  destruct (findIndex (id session) prev) as [idx|] eqn:Hf.
  - destruct (findIndex_Some _ _ _ Hf) as (old & Hold & Hid).
    pose proof (lookup_lt_Some _ _ _ Hold) as Hlt.
    split_and!.
    + exists idx. split; [by apply findIndex_insert|].
      by apply list_lookup_insert_eq.
    + intros s Hs Hne. apply list_elem_of_lookup in Hs as [n Hn].
      apply list_elem_of_lookup. exists n.
      rewrite list_lookup_insert_ne; [done|]. intros <-. congruence.
    + by rewrite length_insert.
    + intros Hnd. rewrite list_fmap_insert.
      rewrite list_insert_id; [done|].
      rewrite list_lookup_fmap, Hold. simpl. by rewrite Hid.
  - split_and!.
    + exists (length prev). split; [by apply findIndex_snoc|].
      by rewrite lookup_app_r, Nat.sub_diag.
    + intros s Hs _. set_solver.
    + rewrite length_app. simpl. lia.
    + intros Hnd. rewrite fmap_app. simpl.
      apply NoDup_app. split_and!; [done| |apply NoDup_singleton].
      intros i Hi ->%list_elem_of_singleton.
      apply list_elem_of_fmap in Hi as (s & Hs & Hin).
      by apply (findIndex_None _ _ Hf s).
Qed.

End ChatStoreFacts.

(** The example session sends ["hello"]; its history has no system
    entry although the log has a system message. *)
Lemma history_has_no_system_entry_witness :
  ∃ d,
    ChatTurn.handleSend ChatTurn.example_stringify None None "1"
      ChatTurn.example_state = Some d
    ∧ Forall (λ e, ChatTurn.h_role e ≠ SYSTEM) (ChatTurn.history d).
Proof.
  eexists. split; [reflexivity|].
  by apply (history_has_no_system_entry ChatTurn.example_stringify None None "1"
              ChatTurn.example_state).
Defined.

(** Regenerating the answer of the example: both answers are shown. *)
Lemma regenerate_outcomes_witness :
  ∃ v reply,
    ChatStore.turn ChatTurn.example_stringify "New chat" "Error: "
      ChatTurn.Regenerate ChatStore.example_clock (Some "s1")
      (ChatStore.Answered (Some "second answer") None)
      ChatStore.example_replied [] = Some v
    ∧ ChatStore.shown v =
        ChatTurn.messages ChatStore.example_replied ++ [reply].
Proof.
  eexists. 
  destruct (regenerate_outcomes ChatTurn.example_stringify "New chat" "Error: "
              ChatStore.example_clock (Some "s1")
              (ChatStore.Answered (Some "second answer") None)
              ChatStore.example_replied [] _ eq_refl)
    as (reply & _ & Hshown & _).
  exists reply. split; [reflexivity|exact Hshown].
Defined.

(** The example session sends ["hello"] and the call fails: the
    store holds the log with ["hello"] as its last message. *)
Lemma failed_send_is_not_stored_witness :
  ∃ v userMsg errMsg,
    ChatStore.turn ChatTurn.example_stringify "New chat" "Error: "
      ChatTurn.SendInput ChatStore.example_clock (Some "s1")
      (ChatStore.Failed {| Gateway.message := Some "quota"; Gateway.status := None |})
      ChatTurn.example_state [] = Some v
    ∧ ChatStore.shown v =
        ChatTurn.messages ChatTurn.example_state ++ [userMsg; errMsg]
    ∧ ChatStore.sessions v =
        ChatStore.saveSession
          (ChatStore.handleSave "New chat" (Some "s1") 1%Z "2026/1/1"
             (ChatTurn.messages ChatTurn.example_state ++ [userMsg])) [].
Proof.
  eexists.
  destruct (failed_send_is_not_stored ChatTurn.example_stringify "New chat"
              "Error: " ChatStore.example_clock (Some "s1")
              {| Gateway.message := Some "quota"; Gateway.status := None |}
              ChatTurn.example_state [] _ eq_refl)
    as (userMsg & errMsg & _ & _ & _ & Hshown & Hstored & _).
  exists userMsg, errMsg. split_and!; [reflexivity|exact Hshown|exact Hstored].
Defined.

(** A first message of more than 15 code units. *)
Lemma title_bounded_witness :
  String.length
    (ChatStore.make_title 15 "New chat"
       [ ChatTurn.example_message SYSTEM "welcome";
         ChatTurn.example_message USER "a question that is rather long" ])
  ≤ 15 + 3.
Proof.
  apply (title_bounded "New chat" 15
           [ ChatTurn.example_message SYSTEM "welcome";
             ChatTurn.example_message USER "a question that is rather long" ]
           (ChatTurn.example_message USER "a question that is rather long")).
  reflexivity.
Defined.

(** Saving a session twice keeps one entry for it. *)
Lemma save_chat_session_upsert_witness :
  NoDup (ChatStore.id <$>
    ChatStore.handleSaveChatSession
      {| ChatStore.id := "s1"; ChatStore.title := "later"; ChatStore.timestamp := 2;
         ChatStore.dateStr := "2026/1/1"; ChatStore.messages := [] |}
      [ {| ChatStore.id := "s1"; ChatStore.title := "first"; ChatStore.timestamp := 1;
           ChatStore.dateStr := "2026/1/1"; ChatStore.messages := [] |} ]).
Proof.
  apply save_chat_session_upsert. simpl. apply NoDup_singleton.
Defined.

(** * The prompt-engineering store: saving *)

Section PromptSaveFacts.

Import PromptStore.

Lemma prompt_findIndex_Some i prev idx :
  findIndex i prev = Some idx →
  ∃ s, prev !! idx = Some s ∧ id s = i.
Proof.
  revert idx. induction prev as [|s prev IH]; intros idx; simpl; [done|].
  destruct (String.eqb_spec (id s) i) as [Heq|Hne].
  - intros [= <-]. by exists s.
  - destruct (findIndex i prev) as [k|]; [|done].
    intros [= <-]. by apply IH.
Qed.

Lemma prompt_findIndex_found i prev s :
  s ∈ prev → id s = i → is_Some (findIndex i prev).
Proof.
  induction prev as [|s0 prev IH]; [by intros ?%not_elem_of_nil|].
  intros [->|Hs]%elem_of_cons Hi; simpl.
  - rewrite Hi, String.eqb_refl. by eexists.
  - destruct (String.eqb (id s0) i); [by eexists|].
    destruct (IH Hs Hi) as [k ->]. by eexists.
Qed.

(** X15.  A save into a session that is in the recycle bin (the reply to a
    request sent before the deletion, which is saved with
    [isDeleted: false]) does not take it out: every session of that id
    is still flagged, and emptying the bin removes it. *)
Theorem late_save_stays_in_trash (session : PromptSession)
    (prev : list PromptSession) (old : PromptSession) :
  old ∈ prev → id old = id session →
  (∀ s, s ∈ handleSavePromptSession session
              (handleDeletePromptSession (id session) prev) →
        id s = id session → isDeleted s = Some true)
  ∧ (∀ s, s ∈ handleEmptyRecycleBin true
              (handleSavePromptSession session
                 (handleDeletePromptSession (id session) prev)) →
        id s ≠ id session).
Proof.
  intros Hold Hid.
  set (deleted := handleDeletePromptSession (id session) prev).
  assert (∀ s, s ∈ deleted → id s = id session → isDeleted s = Some true)
    as Hflag.
  { intros s Hs Hi. unfold deleted, handleDeletePromptSession in Hs.
    apply list_elem_of_fmap in Hs as (s0 & -> & _).
    destruct (String.eqb_spec (id s0) (id session)) as [_|Hne]; [done|].
    by destruct Hne. }
  assert (∀ s, s ∈ handleSavePromptSession session deleted →
            id s = id session → isDeleted s = Some true) as Hsaved.
  { assert (is_Some (findIndex (id session) deleted)) as [idx Hidx].
    { apply (prompt_findIndex_found _ _
               (with_isDeleted (Some true) old)); [|done].
      unfold deleted, handleDeletePromptSession.
      apply list_elem_of_fmap. exists old. split; [|done].
      by rewrite Hid, String.eqb_refl. }
    unfold handleSavePromptSession. rewrite Hidx.
    destruct (prompt_findIndex_Some _ _ _ Hidx) as (cur & Hcur & Hcurid).
    rewrite Hcur. simpl.
    intros s Hs Hi. apply list_elem_of_lookup in Hs as [n Hn].
    destruct (decide (n = idx)) as [->|Hne].
    - rewrite list_lookup_insert_eq in Hn by (by eapply lookup_lt_Some).
      injection Hn as <-. simpl. apply Hflag; [|done].
      apply list_elem_of_lookup. eauto.
    - rewrite list_lookup_insert_ne in Hn by done.
      apply Hflag; [|done]. apply list_elem_of_lookup. eauto. }
  split; [done|].
  intros s [Hnd Hs]%list_elem_of_filter Hi.
  specialize (Hsaved s Hs Hi). unfold not_deleted in Hnd.
  by rewrite Hsaved in Hnd.
Qed.

End PromptSaveFacts.

(** The first session of the example store, deleted, then saved with a
    late reply. *)
Lemma late_save_stays_in_trash_witness :
  Forall (λ s, PromptStore.id s ≠ "a")
    (PromptStore.handleEmptyRecycleBin true
       (PromptStore.handleSavePromptSession
          (PromptStore.example_session "a" (Some false))
          (PromptStore.handleDeletePromptSession "a"
             PromptStore.example_store))).
Proof.
  apply Forall_forall.
  apply (late_save_stays_in_trash (PromptStore.example_session "a" (Some false))
           PromptStore.example_store (PromptStore.example_session "a" None)).
  - apply list_elem_of_here.
  - reflexivity.
Defined.

(** * The gallery, the points and the to-dos *)

Section StudioFacts.

Import Studio.

Lemma add_to_bounded_gallery item (gallery : list GalleryItem) :
  length gallery ≤ 20 → handleAddToGallery item gallery = take 20 (item :: gallery).
Proof.
  intros Hle. unfold handleAddToGallery. cbn [length].
  destruct (Nat.ltb_spec 20 (S (length gallery))) as [Hlt|Hge].
  - by replace (S (length gallery) - 1) with 20 by lia.
  - rewrite take_ge; [done|]. simpl. lia.
Qed.

(** X16.  Filled by [handleAddToGallery] from empty, the gallery is the 20
    most recent items, newest first. *)
Theorem gallery_keeps_newest_twenty (items : list GalleryItem) :
  foldl (λ g item, handleAddToGallery item g) [] items = take 20 (reverse items).
Proof.
  induction items as [|item items IH] using rev_ind; [done|].
  rewrite foldl_app, IH, reverse_app. cbn [foldl reverse app].
  rewrite add_to_bounded_gallery by (rewrite length_take; lia).
  cbn [take]. f_equal. by rewrite take_take.
Qed.

(** X17.  A creation changes nothing, neither the points nor the gallery,
    when the points are short of the cost of the tab, when the edit tab
    has no source image, or when the generation fails or gives an empty
    result.  In every other case it is charged exactly the cost of its
    tab (10, 5 or 50), which the balance covered, so the clamp at 0
    never cuts the charge, and one item with the generated content, the
    prompt and that cost is put in front of the gallery. *)
Theorem execute_charges_exactly activeTab prompt sourceImage generated now
    createdAt (st : State) :
  ((points st < getCurrentCost activeTab)%Z
   ∨ (activeTab = edit ∧ ChatGateway.given sourceImage = None)
   ∨ (∃ e, generated = Gateway.Err e)
   ∨ generated = Gateway.Ok "" →
   execute activeTab prompt sourceImage generated now createdAt st = st)
  ∧ (∀ u,
       (getCurrentCost activeTab ≤ points st)%Z →
       (activeTab = edit → is_Some (ChatGateway.given sourceImage)) →
       generated = Gateway.Ok u → u ≠ "" →
       execute activeTab prompt sourceImage generated now createdAt st =
         {| points := (points st - getCurrentCost activeTab)%Z;
            gallery :=
              handleAddToGallery
                {| id := now.2;
                   type := if activeTab is video_tab then video else image;
                   content := u; prompt := prompt; timestamp := now.1;
                   createdAt := createdAt; cost := getCurrentCost activeTab |}
                (gallery st) |})
  ∧ getCurrentCost activeTab ∈ [10; 5; 50]%Z.
Proof.
  split_and!.
  - unfold execute. intros Hcase.
    destruct (Z.ltb_spec (points st) (getCurrentCost activeTab)) as [Hlt|Hge];
      [done|].
    destruct Hcase as [Hlt|[[-> Hsrc]|[[e ->]| ->]]].
    + lia.
    + by rewrite Hsrc.
    + by destruct activeTab, (ChatGateway.given sourceImage).
    + by destruct activeTab, (ChatGateway.given sourceImage).
  - unfold execute. intros u Hge Hsrc -> Hu.
    destruct (Z.ltb_spec (points st) (getCurrentCost activeTab)) as [Hlt|_];
      [lia|].
    assert (ChatGateway.given (Some u) = Some u) as Hgiven.
    { simpl. by destruct (String.eqb_spec u ""). }
    assert (handleDeductPoints (getCurrentCost activeTab) (points st)
            = (points st - getCurrentCost activeTab)%Z) as Hpay
      by (unfold handleDeductPoints; lia).
    rewrite Hpay.
    destruct activeTab; [by rewrite Hgiven| |by rewrite Hgiven].
    destruct (Hsrc eq_refl) as [img Himg]. by rewrite Himg, Hgiven.
  - destruct activeTab; cbn; set_solver.
Qed.

End StudioFacts.

(** An image generated with 100 points: 90 are left and the image is
    the one item of the gallery. *)
Lemma execute_charges_exactly_witness :
  Studio.execute Studio.gen "a lighthouse" None
    (Gateway.Ok "data:image/png;base64,AAAA") (1700000000000%Z, "1700000000000")
    "2023/11/14" {| Studio.points := 100; Studio.gallery := [] |}
  = {| Studio.points := 90;
       Studio.gallery :=
         [ {| Studio.id := "1700000000000"; Studio.type := Studio.image;
              Studio.content := "data:image/png;base64,AAAA";
              Studio.prompt := "a lighthouse";
              Studio.timestamp := 1700000000000; Studio.createdAt := "2023/11/14";
              Studio.cost := 10 |} ] |}.
Proof.
  destruct (execute_charges_exactly Studio.gen "a lighthouse" None
              (Gateway.Ok "data:image/png;base64,AAAA")
              (1700000000000%Z, "1700000000000") "2023/11/14"
              {| Studio.points := 100; Studio.gallery := [] |})
    as (_ & Hpaid & _).
  apply (Hpaid "data:image/png;base64,AAAA").
  - vm_compute. discriminate.
  - discriminate.
  - reflexivity.
  - discriminate.
Defined.

Section TodoFacts.

Import Todos.

(** X18.  Toggling the same to-do twice gives the list back. *)
Theorem toggle_todo_twice (i : string) (todos : list TodoItem) :
  handleToggleTodo i (handleToggleTodo i todos) = todos.
Proof.
  unfold handleToggleTodo. rewrite <- list_fmap_compose.
  rewrite <- (list_fmap_id todos) at 2. apply list_fmap_ext.
  intros _ t _. simpl.
  destruct (String.eqb (id t) i) eqn:Hi; simpl; rewrite Hi; [|done].
  destruct t as [? ? c ? ?]. unfold toggled. simpl. by rewrite negb_involutive.
Qed.

(** X19.  Extracted tasks are added behind the to-dos there are, all of them
    pending: the number of pending to-dos grows by the number of
    tasks. *)
Theorem add_todos_pending (tasks : list (string * Z * string))
    (todos : list TodoItem) :
  take (length todos) (handleAddTodos tasks todos) = todos
  ∧ text <$> drop (length todos) (handleAddTodos tasks todos) = snd <$> tasks
  ∧ pending (handleAddTodos tasks todos) = pending todos + length tasks.
Proof.
  unfold handleAddTodos, pending. split_and!.
  - by rewrite take_app_length.
  - rewrite drop_app_length, <- list_fmap_compose. by apply list_fmap_ext.
  - rewrite filter_app, length_app. f_equal.
    rewrite filter_Forall_id; [by rewrite length_fmap|].
    by apply Forall_fmap, Forall_forall.
Qed.

End TodoFacts.

(** * Live sessions: transcript and end *)

Section LiveSessionFacts.

Import LiveAudio LiveSession.

Context {T : Type} (zero : T) (add max : T → T → T).

#[local] Abbreviation step := (step zero add max).
#[local] Abbreviation run := (run zero add max).

Lemma join_app (l k : list string) : join (l ++ k) = join l +:+ join k.
Proof.
  induction l as [|x l IH]; [done|].
  cbn [app join foldr]. fold (join (l ++ k)). fold (join l).
  by rewrite IH, string_app_assoc.
Qed.

Lemma handle_interrupted_transcript msg (st : State T) :
  currentTranscript (handle_interrupted zero msg st) = currentTranscript st
  ∧ userTextBuffer (handle_interrupted zero msg st) = userTextBuffer st
  ∧ modelTextBuffer (handle_interrupted zero msg st) = modelTextBuffer st.
Proof. unfold handle_interrupted. by destruct (interrupted msg). Qed.

(** The transcript and buffers after one message that is handled to
    its end. *)
Lemma onmessage_transcript clock msg (st : State T) :
  throws (audioContext st) msg = false →
  let user := userTextBuffer st +:+ inputTranscription msg in
  let model := modelTextBuffer st +:+ outputTranscription msg in
  let flush (role : MessageRole) (text : string) :=
    if String.eqb text "" then [] else [(role, text)] in
  currentTranscript (onmessage zero add max clock msg st) =
    (if turnComplete msg
     then currentTranscript st ++ flush USER user ++ flush MODEL model
     else currentTranscript st)
  ∧ userTextBuffer (onmessage zero add max clock msg st) =
      (if turnComplete msg then "" else user)
  ∧ modelTextBuffer (onmessage zero add max clock msg st) =
      (if turnComplete msg then "" else model).
Proof.
  intros Hthrows.
  destruct (onmessage_handled zero add max clock msg st Hthrows)
    as (st' & _ & -> & _ & Ht & Hu & Hm & _).
  destruct (handle_interrupted_transcript msg (handle_transcription msg st'))
    as (-> & -> & ->).
  unfold handle_transcription.
  cbn [currentTranscript userTextBuffer modelTextBuffer].
  by rewrite Ht, Hu, Hm.
Qed.

Lemma flush_said (role role' : MessageRole) (text : string) :
  join (snd <$> filter (λ e : MessageRole * string, e.1 = role)
                  (if String.eqb text "" then [] else [(role', text)]))
  = if decide (role' = role) then text else "".
Proof.
  destruct (String.eqb_spec text "") as [->|Hne].
  - by destruct (decide (role' = role)).
  - rewrite filter_cons. simpl.
    destruct (decide (role' = role)); [|done].
    cbn. apply string_app_nil.
Qed.

Lemma said_step role (st : State T) (i : Input) :
  role ≠ SYSTEM →
  said role (step st i) = said role st +:+ delta role (audioContext st) i.
Proof.
  intros Hrole. destruct i as [clock msg|src]; simpl.
  - destruct (throws (audioContext st) msg) eqn:Hthrows.
    + destruct (onmessage_thrown zero add max clock msg st Hthrows)
        as (_ & _ & _ & _ & Ht & Hu & Hm & _).
      unfold said, buffer. rewrite Ht, Hu, Hm. by rewrite string_app_nil.
    + destruct (onmessage_transcript clock msg st Hthrows) as (Ht & Hu & Hm).
      unfold said, buffer. rewrite Ht, Hu, Hm.
      destruct (turnComplete msg).
      * rewrite !filter_app, !fmap_app, !join_app, !flush_said.
        destruct role; [| |done]; cbn [decide_rel]; simpl;
          by rewrite ?string_app_nil, ?string_app_assoc.
      * destruct role; [| |done]; by rewrite string_app_assoc.
  - unfold said, buffer. cbn. destruct role; by rewrite string_app_nil.
Qed.

Lemma transcript_entries_step (st : State T) (i : Input) :
  Forall (λ e, e.2 ≠ "") (currentTranscript st) →
  Forall (λ e, e.2 ≠ "") (currentTranscript (step st i)).
Proof.
  intros Hst. destruct i as [clock msg|src]; simpl; [|done].
  destruct (throws (audioContext st) msg) eqn:Hthrows.
  { destruct (onmessage_thrown zero add max clock msg st Hthrows)
      as (_ & _ & _ & _ & -> & _). done. }
  destruct (onmessage_transcript clock msg st Hthrows) as (-> & _ & _).
  destruct (turnComplete msg); [|done].
  rewrite !Forall_app. split_and!; [done| |].
  - destruct (String.eqb_spec (userTextBuffer st +:+ inputTranscription msg) "");
      [done|]. by apply Forall_singleton.
  - destruct (String.eqb_spec (modelTextBuffer st +:+ outputTranscription msg) "");
      [done|]. by apply Forall_singleton.
Qed.

(** X20.  While the session runs, the transcription of the messages that
    are handled to their end is neither lost nor doubled: for each
    speaker, the entries of the transcript followed by the buffer are,
    at any time, exactly the pieces those messages carried for that
    speaker, in the order received, and no entry of the transcript is
    empty.  Interruptions change nothing of it.  The pieces of a
    message at which the handler throws (a model turn without parts, or
    audio data that does not decode while the audio context is live)
    are lost: such a message leaves transcript and buffers as they
    were. *)
Theorem transcript_conservation (inputs : list Input) (st : State T) :
  said USER (run st inputs)
    = said USER st +:+ join (delta USER (audioContext st) <$> inputs)
  ∧ said MODEL (run st inputs)
      = said MODEL st +:+ join (delta MODEL (audioContext st) <$> inputs)
  ∧ (Forall (λ e, e.2 ≠ "") (currentTranscript st) →
     Forall (λ e, e.2 ≠ "") (currentTranscript (run st inputs)))
  ∧ (∀ clock msg,
       throws (audioContext st) msg = true →
       currentTranscript (step st (Message clock msg)) = currentTranscript st
       ∧ userTextBuffer (step st (Message clock msg)) = userTextBuffer st
       ∧ modelTextBuffer (step st (Message clock msg)) = modelTextBuffer st).
Proof.
  split_and!; [| | |].
  - revert st. induction inputs as [|i inputs IH]; intros st.
    + cbn. by rewrite !string_app_nil.
    + unfold LiveAudio.run in *. cbn [foldl fmap list_fmap join foldr].
      fold (join (delta USER (audioContext st) <$> inputs)).
      rewrite IH, step_audioContext, said_step, string_app_assoc by done. done.
  - revert st. induction inputs as [|i inputs IH]; intros st.
    + cbn. by rewrite !string_app_nil.
    + unfold LiveAudio.run in *. cbn [foldl fmap list_fmap join foldr].
      fold (join (delta MODEL (audioContext st) <$> inputs)).
      rewrite IH, step_audioContext, said_step, string_app_assoc by done. done.
  - revert st. induction inputs as [|i inputs IH]; intros st Hst; [done|].
    unfold LiveAudio.run in *. cbn [foldl]. by apply IH, transcript_entries_step.
  - intros clock msg Hthrows.
    destruct (onmessage_thrown zero add max clock msg st Hthrows)
      as (_ & _ & _ & _ & ? & ? & ? & _). done.
Qed.

Lemma stopped_step (st : State T) (i : Input) :
  audioContext st = false → sources st = ∅ →
  audioContext (step st i) = false ∧ sources (step st i) = ∅
  ∧ started (step st i) = started st ∧ stopped (step st i) = stopped st.
Proof.
  intros Hctx Hsrc. destruct i as [clock msg|src]; simpl.
  - unfold onmessage, handle_interrupted, handle_transcription, handle_audio.
    rewrite Hctx.
    destruct (audio msg), (interrupted msg); cbn; rewrite ?Hctx, ?Hsrc;
      split_and!; try done; by rewrite union_empty_r_L.
  - unfold ended. cbn. rewrite Hsrc. split_and!; try done.
    apply empty_difference_L.
Qed.


Lemma sources_consistent_step (st : State T) (i : Input) :
  sources_consistent st → sources_consistent (step st i).
Proof.
  intros [Hlt Hdisj]. destruct i as [clock msg|src]; simpl.
  - destruct (throws (audioContext st) msg) eqn:Hthrows.
    { destruct (onmessage_thrown zero add max clock msg st Hthrows)
        as (Hs & Hp & Hst & _).
      unfold sources_consistent. by rewrite Hs, Hp, Hst. }
    destruct (onmessage_handled zero add max clock msg st Hthrows)
      as (st' & Haudio & -> & _).
    assert (sources_consistent st') as [Hlt' Hdisj'].
    { unfold handle_audio in Haudio.
      destruct (audio msg); [by simplify_eq|done| |].
      { destruct (audioContext st); by simplify_eq. }
      destruct (audioContext st); [|by simplify_eq].
      simplify_eq. split; cbn.
      - intros src. rewrite length_app. cbn.
        rewrite !elem_of_union, elem_of_singleton.
        intros [[->|Hin]|Hin]; [lia| |].
        + assert (src < length (started st)); [|lia].
          apply Hlt, elem_of_union. by left.
        + assert (src < length (started st)); [|lia].
          apply Hlt, elem_of_union. by right.
      - apply disjoint_union_l. split; [|done].
        apply disjoint_singleton_l. intros Hin.
        assert (length (started st) < length (started st)); [|lia].
        apply Hlt, elem_of_union. by right. }
    unfold handle_interrupted, handle_transcription.
    destruct (interrupted msg); split; cbn.
    + intros src. rewrite union_empty_l_L. intros Hin. apply Hlt'.
      rewrite !elem_of_union in *. tauto.
    + apply disjoint_empty_l.
    + done.
    + done.
  - unfold ended. split; cbn.
    + intros s. rewrite elem_of_union, elem_of_difference.
      intros [[Hin _]|Hin]; apply Hlt, elem_of_union; [by left|by right].
    + intros s. rewrite elem_of_difference. intros [Hin _] Hin'.
      by apply (Hdisj s).
Qed.

(** X22.  Through any run, interruptions and ended sources included, a source
    in the set is one that was scheduled and has not been stopped, and
    every stopped source was scheduled. *)
Theorem sources_stay_consistent (inputs : list Input) (st : State T) :
  sources_consistent st → sources_consistent (run st inputs).
Proof.
  revert st. induction inputs as [|i inputs IH]; intros st Hst; [done|].
  unfold LiveAudio.run. cbn [foldl]. by apply IH, sources_consistent_step.
Qed.

End LiveSessionFacts.

(** * PCM audio on the wire *)

Section PcmFacts.

Import Pcm.

Lemma charCodeAt_byte a : is_byte (charCodeAt a).
Proof.
  unfold is_byte, charCodeAt. pose proof (N_ascii_bounded a). lia.
Qed.

Lemma charCodeAt_fromCharCode b : is_byte b → charCodeAt (fromCharCode b) = b.
Proof.
  unfold is_byte, charCodeAt, fromCharCode. intros Hb.
  rewrite N_ascii_embedding by lia. lia.
Qed.

Lemma fromCharCode_charCodeAt a : fromCharCode (charCodeAt a) = a.
Proof.
  unfold charCodeAt, fromCharCode. rewrite N2Z.id. apply ascii_N_embedding.
Qed.

Lemma charCodes_of_bytes (bytes : list Z) :
  Forall is_byte bytes → charCodeAt <$> (fromCharCode <$> bytes) = bytes.
Proof.
  induction 1 as [|b bytes Hb _ IH]; [done|].
  cbn. cbn in IH. by rewrite IH, charCodeAt_fromCharCode.
Qed.

Lemma chars_of_charCodes (chars : list ascii) :
  fromCharCode <$> (charCodeAt <$> chars) = chars.
Proof.
  induction chars as [|a chars IH]; [done|].
  cbn. cbn in IH. by rewrite IH, fromCharCode_charCodeAt.
Qed.

Lemma bytes_of_int16 k :
  is_byte (low_byte k) ∧ is_byte (high_byte k)
  ∧ (is_int16 k → int16_of_bytes (low_byte k) (high_byte k) = k).
Proof.
  unfold is_byte, is_int16, low_byte, high_byte, int16_of_bytes.
  split_and!; [apply Z.mod_pos_bound; lia..|].
  intros Hk. destruct (Z.ltb_spec (k `mod` 256 + 256 * ((k `div` 256) `mod` 256)) 32768);
    Z.to_euclidean_division_equations; lia.
Qed.

Lemma int16_of_bytes_spec lo hi :
  is_byte lo → is_byte hi →
  is_int16 (int16_of_bytes lo hi)
  ∧ low_byte (int16_of_bytes lo hi) = lo
  ∧ high_byte (int16_of_bytes lo hi) = hi.
Proof.
  unfold is_byte, is_int16, low_byte, high_byte, int16_of_bytes.
  intros Hlo Hhi. destruct (Z.ltb_spec (lo + 256 * hi) 32768);
    repeat split; Z.to_euclidean_division_equations; lia.
Qed.

Lemma ToInt16_spec n :
  is_int16 (ToInt16 n) ∧ (is_int16 n → ToInt16 n = n).
Proof.
  unfold is_int16, ToInt16. split.
  - pose proof (Z.mod_pos_bound (n + 32768) 65536). lia.
  - intros Hn. rewrite Z.mod_small; lia.
Qed.

Lemma scaled_decoded k : scaled {| mantissa := k; exponent := 15 |} = k.
Proof. unfold scaled. cbn. by rewrite Z.quot_mul. Qed.

Lemma uint8_bytes (ks : list Z) :
  Forall is_byte (ks ≫= (λ k, [low_byte k; high_byte k])).
Proof.
  induction ks as [|k ks IH]; [done|].
  destruct (bytes_of_int16 k) as (Hl & Hh & _).
  change (Forall is_byte
            (low_byte k :: high_byte k :: (ks ≫= (λ k, [low_byte k; high_byte k])))).
  constructor; [exact Hl|]. constructor; [exact Hh|exact IH].
Qed.

Lemma decoded_samples_encode (ks : list Z) :
  Forall is_int16 ks →
  (λ x, ToInt16 (scaled x)) <$> ((λ k, {| mantissa := k; exponent := 15 |}) <$> ks)
  = ks.
Proof.
  induction 1 as [|k ks Hk _ IH]; [done|].
  cbn. cbn in IH. rewrite IH, scaled_decoded. f_equal. by apply ToInt16_spec.
Qed.

Lemma Int16Array_of_bytes (ks : list Z) :
  Forall is_int16 ks →
  Int16Array (ks ≫= (λ k, [low_byte k; high_byte k])) = Some ks.
Proof.
  induction 1 as [|k ks Hk _ IH]; [done|].
  cbn. cbn in IH. rewrite IH. simpl.
  by destruct (bytes_of_int16 k) as (_ & _ & ->).
Qed.

Lemma Int16Array_bytes (bytes : list Z) :
  (∀ ks, Forall is_byte bytes → Int16Array bytes = Some ks →
     Forall is_int16 ks ∧ ks ≫= (λ k, [low_byte k; high_byte k]) = bytes
     ∧ 2 * length ks = length bytes)
  ∧ (∀ b ks, Forall is_byte (b :: bytes) → Int16Array (b :: bytes) = Some ks →
     Forall is_int16 ks ∧ ks ≫= (λ k, [low_byte k; high_byte k]) = b :: bytes
     ∧ 2 * length ks = length (b :: bytes)).
Proof.
  induction bytes as [|hi rest [IH0 IH1]].
  - split; [by intros ks _ [= <-]|done].
  - split; [by apply IH1|].
    intros lo ks Hbytes. cbn [Int16Array].
    destruct (Int16Array rest) as [ks'|] eqn:Hrest; [|done].
    intros [= <-].
    apply Forall_cons in Hbytes as [Hlo Hbytes].
    apply Forall_cons in Hbytes as [Hhi Hbytes].
    destruct (IH0 ks' Hbytes eq_refl) as (Hks & Hflat & Hlen).
    destruct (int16_of_bytes_spec lo hi Hlo Hhi) as (Hk & Hl & Hh).
    split_and!.
    + by apply Forall_cons.
    + cbn. cbn in Hflat. by rewrite Hl, Hh, Hflat.
    + cbn. lia.
Qed.

(** X23.  Within the range [-1, 1) a sample goes over the wire without
    wrapping, and what is sent differs from it by less than one step of
    1/32768: with [k] the 16-bit value sent, [|k / 32768 - x| < 1 / 32768]. *)
Theorem quantization_error (x : Sample) :
  (- 2 ^ Z.of_nat (exponent x) ≤ mantissa x < 2 ^ Z.of_nat (exponent x))%Z →
  ToInt16 (scaled x) = scaled x
  ∧ is_int16 (scaled x)
  ∧ (Z.abs (scaled x * 2 ^ Z.of_nat (exponent x) - mantissa x * 32768)
       < 2 ^ Z.of_nat (exponent x))%Z.
Proof.
  intros Hx. unfold scaled, is_int16.
  set (d := (2 ^ Z.of_nat (exponent x))%Z) in *.
  assert (0 < d)%Z as Hd by (apply Z.pow_pos_nonneg; lia).
  set (n := (mantissa x * 32768)%Z).
  assert (-32768 * d ≤ n < 32768 * d)%Z as Hn by (unfold n; lia).
  pose proof (Z.quot_rem' n d) as Hqr.
  assert (Z.abs (Z.rem n d) < d)%Z as Hrem.
  { pose proof (Z.rem_bound_abs n d ltac:(lia)). lia. }
  assert (0 ≤ n → 0 ≤ Z.rem n d)%Z as Hpos
    by (intros; apply Z.rem_nonneg; lia).
  assert (n ≤ 0 → Z.rem n d ≤ 0)%Z as Hneg
    by (intros; apply Z.rem_nonpos; lia).
  assert (-32768 ≤ n ÷ d < 32768)%Z as Hq by nia.
  split; [apply ToInt16_spec; exact Hq|]. split; [exact Hq|].
  replace (n ÷ d * d - n)%Z with (- Z.rem n d)%Z by lia. lia.
Qed.

(** The binary string has two code units for each sample. *)
Lemma pcm_binary_length (data : list Sample) :
  String.length (pcm_binary data) = 2 * length data.
Proof.
  unfold pcm_binary.
  rewrite <- (length_fmap (λ x, ToInt16 (scaled x)) data).
  generalize ((λ x, ToInt16 (scaled x)) <$> data). intros ks.
  induction ks as [|k ks IH]; [done|].
  cbn. cbn in IH. rewrite IH. lia.
Qed.

Section Wire.

Context (btoa : string → string) (atob : string → option string).
Hypothesis atob_btoa : ∀ s, atob (btoa s) = Some s.

(** X24.  What is encoded by [createPcmBlob] is decoded by [decodeAudioData]
    to the same number of samples, each one the quantized form of the
    sample sent. *)
Theorem pcm_round_trip (data : list Sample) :
  data ≠ [] →
  decodeAudioData atob (blob_data (createPcmBlob btoa data)) =
    Some {| channelData := quantized <$> data; sampleRate := 24000 |}.
Proof.
  intros Hdata. unfold decodeAudioData, createPcmBlob. cbn [blob_data].
  rewrite atob_btoa. cbn [mbind option_bind]. unfold pcm_binary.
  rewrite String.list_ascii_of_string_of_list_ascii.
  rewrite charCodes_of_bytes by apply uint8_bytes.
  rewrite Int16Array_of_bytes
    by (apply Forall_fmap, Forall_forall; intros x _; apply ToInt16_spec).
  cbn [mbind option_bind].
  destruct data as [|x data]; [done|].
  cbn [fmap list_fmap]. do 2 f_equal.
  by rewrite <- list_fmap_compose.
Qed.

End Wire.

(** X25.  Audio that [decodeAudioData] accepts encodes back to the very
    bytes it came from, two for each frame; binary data of odd length,
    and no data, are rejected. *)
Theorem pcm_decode_encode (atob : string → option string)
    (base64 binaryString : string) :
  atob base64 = Some binaryString →
  match decodeAudioData atob base64 with
  | Some buffer =>
      pcm_binary (channelData buffer) = binaryString
      ∧ 2 * frameCount buffer = String.length binaryString
  | None =>
      Nat.odd (String.length binaryString) = true ∨ binaryString = ""
  end.
Proof.
  intros Hatob. unfold decodeAudioData. rewrite Hatob. cbn [mbind option_bind].
  set (bytes := charCodeAt <$> String.list_ascii_of_string binaryString).
  assert (Forall is_byte bytes) as Hbytes.
  { apply Forall_fmap, Forall_forall. intros a _. apply charCodeAt_byte. }
  assert (length bytes = String.length binaryString) as Hlen.
  { unfold bytes. rewrite length_fmap. clear.
    induction binaryString as [|a s IH]; [done|]. cbn. by rewrite IH. }
  destruct (Int16Array bytes) as [ks|] eqn:Hks; cbn [mbind option_bind].
  - destruct (proj1 (Int16Array_bytes bytes) ks Hbytes Hks) as (Hint & Hflat & Hl).
    destruct ks as [|k ks].
    + right. cbn in Hl. rewrite Hlen in Hl. by destruct binaryString.
    + unfold frameCount. cbn [channelData]. rewrite length_fmap.
      split; [|lia].
      unfold pcm_binary. rewrite decoded_samples_encode, Hflat by done.
      unfold bytes. rewrite chars_of_charCodes.
      apply String.string_of_list_ascii_of_string.
  - left. rewrite <- Hlen. clear -Hks.
    assert (∀ l, (Int16Array l = None → Nat.odd (length l) = true)
                 ∧ (∀ b, Int16Array (b :: l) = None → Nat.odd (S (length l)) = true))
      as Hodd.
    { induction l as [|hi rest [IH0 IH1]]; [done|].
      split; [by apply IH1|].
      intros b. cbn [Int16Array].
      destruct (Int16Array rest) eqn:Hr; [done|].
      intros _. cbn [length]. rewrite Nat.odd_succ, Nat.even_succ. by apply IH0. }
    by apply Hodd.
Qed.

End PcmFacts.

(** Base64 left out, a frame of three samples, one of them at the
    lower edge of the range. *)
Lemma pcm_round_trip_witness :
  Pcm.decodeAudioData Some
    (Pcm.blob_data
       (Pcm.createPcmBlob (λ s, s)
          [ {| Pcm.mantissa := 1; Pcm.exponent := 1 |};
            {| Pcm.mantissa := -1; Pcm.exponent := 0 |};
            {| Pcm.mantissa := 3; Pcm.exponent := 20 |} ]))
  = Some {| Pcm.channelData :=
              [ {| Pcm.mantissa := 16384; Pcm.exponent := 15 |};
                {| Pcm.mantissa := -32768; Pcm.exponent := 15 |};
                {| Pcm.mantissa := 0; Pcm.exponent := 15 |} ];
            Pcm.sampleRate := 24000 |}.
Proof.
  apply (pcm_round_trip (λ s, s) Some (λ s, eq_refl)
           [ {| Pcm.mantissa := 1; Pcm.exponent := 1 |};
             {| Pcm.mantissa := -1; Pcm.exponent := 0 |};
             {| Pcm.mantissa := 3; Pcm.exponent := 20 |} ]).
  discriminate.
Defined.

(** Four bytes of audio, decoded and encoded again. *)
Lemma pcm_decode_encode_witness :
  match Pcm.decodeAudioData Some "abcd" with
  | Some buffer =>
      Pcm.pcm_binary (Pcm.channelData buffer) = "abcd"
      ∧ 2 * Pcm.frameCount buffer = String.length "abcd"
  | None => Nat.odd (String.length "abcd") = true ∨ "abcd" = ""
  end.
Proof. apply (pcm_decode_encode Some "abcd" "abcd"). reflexivity. Defined.

(** The sample 0.3 (as a Float32, 10066330 / 2^25). *)
Lemma quantization_error_witness :
  Pcm.ToInt16 (Pcm.scaled {| Pcm.mantissa := 10066330; Pcm.exponent := 25 |})
  = Pcm.scaled {| Pcm.mantissa := 10066330; Pcm.exponent := 25 |}.
Proof.
  apply (quantization_error {| Pcm.mantissa := 10066330; Pcm.exponent := 25 |}).
  cbn [Pcm.mantissa Pcm.exponent]. split; [vm_compute; discriminate|reflexivity].
Defined.

(** * Editing a category on the dashboard *)

Section CardFacts.

Import Decisions Cards.

Implicit Types (h : Heap) (st : AppState) (p : UserMemoryProfile).

Lemma read_profile_elim h l p :
  read_profile h l = Some p →
  ∃ o, read_obj h l = Some o
       ∧ (∀ c, read_array h (get_category c o) = Some (get_items c p))
       ∧ lastUpdated p = o_lastUpdated o.
Proof.
  unfold read_profile. intros H.
  destruct (read_obj h l) as [o|]; [|done]. cbn [mbind option_bind] in H.
  destruct (read_array h (o_values o)) eqn:E1; [|done].
  destruct (read_array h (o_personalityTraits o)) eqn:E2; [|done].
  destruct (read_array h (o_mentalModels o)) eqn:E3; [|done].
  destruct (read_array h (o_workHabits o)) eqn:E4; [|done].
  destruct (read_array h (o_decisionPrinciples o)) eqn:E5; [|done].
  destruct (read_array h (o_interests o)) eqn:E6; [|done].
  cbn in H. injection H as <-. exists o. split; [done|]. split; [|done].
  by intros [].
Qed.

Lemma read_profile_intro h l o (items : Category → list string) :
  read_obj h l = Some o →
  (∀ c, read_array h (get_category c o) = Some (items c)) →
  read_profile h l = Some (make_profile items (o_lastUpdated o)).
Proof.
  intros Ho Hitems. unfold read_profile. rewrite Ho. cbn [mbind option_bind].
  pose proof (Hitems Values) as H1. pose proof (Hitems PersonalityTraits) as H2.
  pose proof (Hitems MentalModels) as H3. pose proof (Hitems WorkHabits) as H4.
  pose proof (Hitems DecisionPrinciples) as H5. pose proof (Hitems Interests) as H6.
  cbn [get_category] in *. by rewrite H1, H2, H3, H4, H5, H6.
Qed.

Lemma get_category_set c c' l o :
  get_category c' (set_category c l o) =
    if decide (c' = c) then l else get_category c' o.
Proof. by destruct c, c'. Qed.

(** What [updateProfileSection] shows: the category replaced by the
    array handed in, and the time stamp of the update. *)
Lemma updateProfileSection_shown now c newItems items st p :
  shown_profile st = Some p →
  read_array (heap st) newItems = Some items →
  shown_profile (updateProfileSection now c newItems st)
    = Some (edited now c items p).
Proof.
  unfold shown_profile. intros Hp Hitems.
  destruct (read_profile_elim _ _ _ Hp) as (o & Ho & Harr & _).
  unfold updateProfileSection. rewrite Ho.
  destruct (alloc _ (heap st)) as [l1 h1] eqn:E1.
  apply alloc_spec in E1 as (_ & L1 & S1).
  assert (read_obj h1 l1 = Some (set_category c newItems o)) as Ho1
    by (unfold read_obj; by rewrite L1).
  unfold handleUpdateProfile. cbn [heap profile decisions]. rewrite Ho1.
  destruct (alloc _ h1) as [l2 h2] eqn:E2.
  apply alloc_spec in E2 as (_ & L2 & S2).
  cbn [heap profile].
  assert (heap st ⊆ h2) as S02 by (etrans; [exact S1|exact S2]).
  assert (read_obj h2 l2 = Some _) as Ho2
    by (unfold read_obj; rewrite L2; reflexivity).
  apply (read_profile_intro _ _ _
           (λ c', if decide (c' = c) then items else get_items c' p)) in Ho2.
  - exact Ho2.
  - intros c'. apply (read_array_mono (heap st)); [exact S02|].
    pose proof (Harr c') as Hc'.
    destruct c, c'; first [exact Hitems | exact Hc'].
Qed.


(** X27.  Removing an item on a card: the item at that index is taken out of
    that category (none when the index is past the end), the other
    categories stay as they are, and the profile gets the time of the
    edit. *)
Theorem card_remove_item now c index st p :
  shown_profile st = Some p →
  shown_profile (handleRemoveItem now c index st)
    = Some (edited now c (delete index (get_items c p)) p).
Proof.
  intros Hp.
  assert (safeItems c st = get_items c p) as Hsafe.
  { unfold safeItems. unfold shown_profile in Hp.
    destruct (read_profile_elim _ _ _ Hp) as (o & Ho & Harr & _).
    by rewrite Ho; cbn; rewrite Harr. }
  unfold handleRemoveItem. rewrite Hsafe.
  destruct (alloc _ (heap st)) as [l h] eqn:E.
  unfold alloc in E. injection E as <- <-.
  assert (heap st !! fresh (dom (heap st)) = None) as Hfresh
    by apply not_elem_of_dom, is_fresh.
  apply updateProfileSection_shown.
  - unfold shown_profile. cbn [heap profile].
    apply (read_profile_mono (heap st)); [|done].
    rewrite insert_insert_eq. by apply insert_subseteq.
  - unfold read_array. cbn [heap]. by rewrite lookup_insert_eq.
Qed.

End CardFacts.

(** The example talk with a last piece in a message whose audio data
    does not decode: what the user said is what the other messages
    carried, and the last piece is lost. *)
Lemma transcript_conservation_witness :
  LiveSession.said USER
    (LiveAudio.run 0%Z Z.add Z.max LiveAudio.example_open
       LiveSession.example_garbled_talk)
  = LiveSession.said USER LiveAudio.example_open
      +:+ LiveSession.join
            (LiveSession.delta USER true <$> LiveSession.example_garbled_talk)
  ∧ LiveSession.join
      (LiveSession.delta USER true <$> LiveSession.example_garbled_talk)
    = "good morningand".
Proof.
  split; [|reflexivity].
  apply (transcript_conservation 0%Z Z.add Z.max LiveSession.example_garbled_talk
           LiveAudio.example_open).
Defined.


(** From a session just opened, through frames and an ended source. *)
Lemma sources_stay_consistent_witness :
  LiveSession.sources_consistent
    (LiveAudio.run 0%Z Z.add Z.max LiveAudio.example_open LiveAudio.example_inputs).
Proof.
  apply (sources_stay_consistent 0%Z Z.add Z.max LiveAudio.example_inputs
           LiveAudio.example_open).
  split.
  - intros src Hsrc. cbn in Hsrc. rewrite union_empty_l_L in Hsrc.
    by apply not_elem_of_empty in Hsrc.
  - cbn. apply disjoint_empty_l.
Defined.


(** Removing the one value of the example profile. *)
Lemma card_remove_item_witness :
  Cards.shown_profile
    (Decisions.handleRemoveItem "2026/1/2" Decisions.Values 0 Decisions.example_app)
  = Some (Cards.edited "2026/1/2" Decisions.Values [] ChatTurn.example_profile).
Proof.
  apply (card_remove_item "2026/1/2" Decisions.Values 0 Decisions.example_app
           ChatTurn.example_profile).
  by vm_compute.
Defined.
